(** * NuPlayer: the player controller state machine

    A shallow embedding of
    [media/libmediaplayerservice/nuplayer/NuPlayer.cpp]: the message
    handler [onMessageReceived], the twin flush/shutdown machines of the
    audio and video tracks, the source-scanning retry loop and the reset
    sequencing.

    The controller runs on a single-threaded looper, so every handler is a
    function from the controller state to a result.  A failed [CHECK], a
    [TRESPASS] and a dereference of a NULL strong pointer end the process;
    they are the [Abort] results.  Calls on the collaborators (source,
    decoders, renderer, audio sink, listener, reply channels) are recorded
    in order in [trace]; messages the controller posts to itself are
    recorded in [queue]. *)

From Stdlib Require Import ZArith List Bool Lia.
Import ListNotations.
Open Scope Z_scope.

(* ------------------------------------------------------------------ *)
(** ** Handles, enumerations and messages *)

(** [sp<T>]: a strong pointer, [None] being NULL. *)
Definition sp (T : Type) : Type := option T.

Definition Source := nat.
Definition Surface := nat.
Definition AudioSink := nat.
Definition MetaData := nat.
Definition Listener := nat.
Definition Reply := nat.

(** Modelled from the spec: the [FlushStatus] enumeration is declared in
    NuPlayer.h, which is not among the sources; the values are those the
    code names, in the order of section 3 of the specification. *)
Inductive FlushStatus : Type :=
| NONE
| AWAITING_DISCONTINUITY
| FLUSHING_DECODER
| FLUSHING_DECODER_SHUTDOWN
| SHUTTING_DOWN_DECODER
| FLUSHED
| SHUT_DOWN.

Definition FlushStatus_eqb (a b : FlushStatus) : bool :=
  match a, b with
  | NONE, NONE
  | AWAITING_DISCONTINUITY, AWAITING_DISCONTINUITY
  | FLUSHING_DECODER, FLUSHING_DECODER
  | FLUSHING_DECODER_SHUTDOWN, FLUSHING_DECODER_SHUTDOWN
  | SHUTTING_DOWN_DECODER, SHUTTING_DOWN_DECODER
  | FLUSHED, FLUSHED
  | SHUT_DOWN, SHUT_DOWN => true
  | _, _ => false
  end.

(** Modelled from the spec: the [status_t] codes the controller compares
    against (errno's EWOULDBLOCK and MediaErrors.h) are not among the
    sources; section 6 gives the result of [dequeue_access_unit] as
    success, WouldBlock, Discontinuity, Eos or another error. *)
Inductive status_t : Type :=
| OK
| WOULD_BLOCK              (* -EWOULDBLOCK *)
| INFO_DISCONTINUITY
| ERROR_END_OF_STREAM
| OTHER_ERROR (code : Z).

Definition status_eqb (a b : status_t) : bool :=
  match a, b with
  | OK, OK
  | WOULD_BLOCK, WOULD_BLOCK
  | INFO_DISCONTINUITY, INFO_DISCONTINUITY
  | ERROR_END_OF_STREAM, ERROR_END_OF_STREAM => true
  | OTHER_ERROR x, OTHER_ERROR y => Z.eqb x y
  | _, _ => false
  end.

(** Modelled from the spec: ATSParser's discontinuity kinds are not among
    the sources; section 6 names FORMATCHANGE and says every other value
    causes a flush without shutdown. *)
Inductive DiscontinuityType : Type :=
| DISCONTINUITY_FORMATCHANGE
| DISCONTINUITY_OTHER (code : Z).

Definition is_FORMATCHANGE (t : DiscontinuityType) : bool :=
  match t with
  | DISCONTINUITY_FORMATCHANGE => true
  | DISCONTINUITY_OTHER _ => false
  end.

(** Modelled from the spec: the listener event kinds of
    MediaPlayerInterface.h (section 6). *)
Inductive media_event_type : Type :=
| MEDIA_PLAYBACK_COMPLETE
| MEDIA_RESET_COMPLETE.

(** An access unit: its payload and the ["discontinuity"] entry of its
    meta data, when it has one. *)
Record ABuffer : Type := mkABuffer {
  ab_data : nat;
  ab_discontinuity : option DiscontinuityType
}.

(** Modelled from the spec: the notification tags of ACodec (section 6,
    Decoder). *)
Inductive CodecWhat : Type :=
| kWhatFillThisBuffer
| kWhatDrainThisBuffer
| kWhatEOS
| kWhatShutdownCompleted
| kWhatFlushCompleted
| kWhatOutputFormatChanged
| kWhatCodecOther (what : Z).

(** The ["codec-request"] message of a decoder notification; an absent
    entry is [None]. *)
Record CodecRequest : Type := mkCodecRequest {
  cr_what : option CodecWhat;
  cr_reply : option Reply;
  cr_buffer : option (sp ABuffer);
  cr_channel_count : option Z;
  cr_sample_rate : option Z
}.

(** Modelled from the spec: the notification tags of the renderer
    (section 6, Renderer). *)
Inductive RendererWhat : Type :=
| Renderer_kWhatEOS
| Renderer_kWhatFlushComplete
| Renderer_kWhatOther (what : Z).

(** The messages of the controller, one constructor per [what] tag, each
    with the entries its handler looks up ([None]: entry missing). *)
Inductive Msg : Type :=
| kWhatSetDataSource (source : option (sp Source))
| kWhatSetVideoSurface (surface : option (sp Surface))
| kWhatSetAudioSink (sink : option (sp AudioSink))
| kWhatStart
| kWhatScanSources (generation : option Z)
| kWhatVideoNotify (codecRequest : option CodecRequest)
| kWhatAudioNotify (codecRequest : option CodecRequest)
| kWhatRendererNotify (what : option RendererWhat) (audio : option Z)
| kWhatMoreDataQueued
| kWhatReset
| kWhatUnknown (what : Z).

Record Decoder : Type := mkDecoder {
  dec_audio : bool;
  dec_surface : sp Surface
}.

Record Renderer : Type := mkRenderer {
  rnd_sink : sp AudioSink
}.

(** What a reply message carries when it is posted back to a decoder. *)
Inductive ReplyPayload : Type :=
| ReplyErr (err : status_t)
| ReplyBuffer (buffer : sp ABuffer).

(** The calls the controller makes on its collaborators. *)
Inductive Call : Type :=
| Source_start
| Source_getFormat (audio : bool)
| Source_feedMoreTSData
| Source_dequeueAccessUnit (audio : bool)
| Renderer_new (sink : sp AudioSink)
| Looper_registerRenderer
| Decoder_new (audio : bool) (surface : sp Surface)
| Looper_registerDecoder (audio : bool)
| Decoder_configure (audio : bool) (meta : MetaData)
| Decoder_signalFlush (audio : bool)
| Decoder_signalResume (audio : bool)
| Decoder_initiateShutdown (audio : bool)
| Renderer_queueEOS (audio : bool) (err : status_t)
| Renderer_queueBuffer (audio : bool) (buffer : sp ABuffer) (reply : Reply)
| Renderer_flush (audio : bool)
| Renderer_signalTimeDiscontinuity
| Renderer_signalAudioSinkChanged
| AudioSink_close
| AudioSink_open (sampleRate numChannels : Z)
| AudioSink_start
| Listener_sendEvent (msg : media_event_type) (ext1 ext2 : Z)
| Reply_post (reply : Reply) (payload : ReplyPayload).

(** Why the process ended. *)
Inductive AbortReason : Type :=
| CheckFailed
| Trespass
| NullSource
| NullDecoder
| NullRenderer
| NullAudioSink
| NullBuffer.

Inductive Result (A : Type) : Type :=
| Ok (a : A)
| Abort (why : AbortReason).
Arguments Ok {A} a.
Arguments Abort {A} why.

Definition bind {A B : Type} (r : Result A) (k : A -> Result B) : Result B :=
  match r with
  | Ok a => k a
  | Abort e => Abort e
  end.

Notation "x <- e ;; k" := (bind e (fun x => k))
  (at level 61, e at next level, right associativity).

(** [CHECK(cond)] *)
Definition CHECK {A : Type} (cond : bool) (k : Result A) : Result A :=
  if cond then k else Abort CheckFailed.

(** [++] on an [int32_t], with the two's complement wrap-around. *)
Definition INT32_MAX : Z := 2147483647.
Definition INT32_MIN : Z := -2147483648.

Definition int32_wrap (z : Z) : Z := (z + 2147483648) mod 4294967296 - 2147483648.

Definition int32_incr (z : Z) : Z := int32_wrap (z + 1).

(** Modelled from the spec: the Source, AudioSink and listener classes
    (NuPlayerSource.h, MediaPlayerInterface.h) are not among the sources.
    Section 6 gives their operations; each is taken here as a function on
    an abstract state [W] of the world outside the controller. *)
Class World (W : Type) : Type := {
  source_start : Source -> W -> W;
  source_getFormat : Source -> bool -> W -> sp MetaData * W;
  source_feedMoreTSData : Source -> W -> bool * W;
  source_dequeueAccessUnit : Source -> bool -> W -> status_t * sp ABuffer * W;
  sink_open : AudioSink -> Z -> Z -> W -> status_t * W;
  listener_promote : Listener -> W -> bool
}.

(* ------------------------------------------------------------------ *)
(** ** The controller *)

Section Controller.

Context {W : Type} `{World W}.

(** The members of [NuPlayer], then the world, the calls made so far and
    the messages the controller has posted to itself (with their delay in
    microseconds) that were not yet taken out for dispatch. *)
Record State : Type := mkState {
  mListener : option Listener;
  mSource : sp Source;
  mSurface : sp Surface;
  mAudioSink : sp AudioSink;
  mVideoDecoder : sp Decoder;
  mAudioDecoder : sp Decoder;
  mRenderer : sp Renderer;
  mAudioEOS : bool;
  mVideoEOS : bool;
  mScanSourcesPending : bool;
  mScanSourcesGeneration : Z;
  mFlushingAudio : FlushStatus;
  mFlushingVideo : FlushStatus;
  mResetInProgress : bool;
  mResetPostponed : bool;
  world : W;
  trace : list Call;
  queue : list (Msg * Z)
}.

Definition set_mListener v s := mkState v (mSource s) (mSurface s) (mAudioSink s) (mVideoDecoder s) (mAudioDecoder s) (mRenderer s) (mAudioEOS s) (mVideoEOS s) (mScanSourcesPending s) (mScanSourcesGeneration s) (mFlushingAudio s) (mFlushingVideo s) (mResetInProgress s) (mResetPostponed s) (world s) (trace s) (queue s).
Definition set_mSource v s := mkState (mListener s) v (mSurface s) (mAudioSink s) (mVideoDecoder s) (mAudioDecoder s) (mRenderer s) (mAudioEOS s) (mVideoEOS s) (mScanSourcesPending s) (mScanSourcesGeneration s) (mFlushingAudio s) (mFlushingVideo s) (mResetInProgress s) (mResetPostponed s) (world s) (trace s) (queue s).
Definition set_mSurface v s := mkState (mListener s) (mSource s) v (mAudioSink s) (mVideoDecoder s) (mAudioDecoder s) (mRenderer s) (mAudioEOS s) (mVideoEOS s) (mScanSourcesPending s) (mScanSourcesGeneration s) (mFlushingAudio s) (mFlushingVideo s) (mResetInProgress s) (mResetPostponed s) (world s) (trace s) (queue s).
Definition set_mAudioSink v s := mkState (mListener s) (mSource s) (mSurface s) v (mVideoDecoder s) (mAudioDecoder s) (mRenderer s) (mAudioEOS s) (mVideoEOS s) (mScanSourcesPending s) (mScanSourcesGeneration s) (mFlushingAudio s) (mFlushingVideo s) (mResetInProgress s) (mResetPostponed s) (world s) (trace s) (queue s).
Definition set_mVideoDecoder v s := mkState (mListener s) (mSource s) (mSurface s) (mAudioSink s) v (mAudioDecoder s) (mRenderer s) (mAudioEOS s) (mVideoEOS s) (mScanSourcesPending s) (mScanSourcesGeneration s) (mFlushingAudio s) (mFlushingVideo s) (mResetInProgress s) (mResetPostponed s) (world s) (trace s) (queue s).
Definition set_mAudioDecoder v s := mkState (mListener s) (mSource s) (mSurface s) (mAudioSink s) (mVideoDecoder s) v (mRenderer s) (mAudioEOS s) (mVideoEOS s) (mScanSourcesPending s) (mScanSourcesGeneration s) (mFlushingAudio s) (mFlushingVideo s) (mResetInProgress s) (mResetPostponed s) (world s) (trace s) (queue s).
Definition set_mRenderer v s := mkState (mListener s) (mSource s) (mSurface s) (mAudioSink s) (mVideoDecoder s) (mAudioDecoder s) v (mAudioEOS s) (mVideoEOS s) (mScanSourcesPending s) (mScanSourcesGeneration s) (mFlushingAudio s) (mFlushingVideo s) (mResetInProgress s) (mResetPostponed s) (world s) (trace s) (queue s).
Definition set_mAudioEOS v s := mkState (mListener s) (mSource s) (mSurface s) (mAudioSink s) (mVideoDecoder s) (mAudioDecoder s) (mRenderer s) v (mVideoEOS s) (mScanSourcesPending s) (mScanSourcesGeneration s) (mFlushingAudio s) (mFlushingVideo s) (mResetInProgress s) (mResetPostponed s) (world s) (trace s) (queue s).
Definition set_mVideoEOS v s := mkState (mListener s) (mSource s) (mSurface s) (mAudioSink s) (mVideoDecoder s) (mAudioDecoder s) (mRenderer s) (mAudioEOS s) v (mScanSourcesPending s) (mScanSourcesGeneration s) (mFlushingAudio s) (mFlushingVideo s) (mResetInProgress s) (mResetPostponed s) (world s) (trace s) (queue s).
Definition set_mScanSourcesPending v s := mkState (mListener s) (mSource s) (mSurface s) (mAudioSink s) (mVideoDecoder s) (mAudioDecoder s) (mRenderer s) (mAudioEOS s) (mVideoEOS s) v (mScanSourcesGeneration s) (mFlushingAudio s) (mFlushingVideo s) (mResetInProgress s) (mResetPostponed s) (world s) (trace s) (queue s).
Definition set_mScanSourcesGeneration v s := mkState (mListener s) (mSource s) (mSurface s) (mAudioSink s) (mVideoDecoder s) (mAudioDecoder s) (mRenderer s) (mAudioEOS s) (mVideoEOS s) (mScanSourcesPending s) v (mFlushingAudio s) (mFlushingVideo s) (mResetInProgress s) (mResetPostponed s) (world s) (trace s) (queue s).
Definition set_mFlushingAudio v s := mkState (mListener s) (mSource s) (mSurface s) (mAudioSink s) (mVideoDecoder s) (mAudioDecoder s) (mRenderer s) (mAudioEOS s) (mVideoEOS s) (mScanSourcesPending s) (mScanSourcesGeneration s) v (mFlushingVideo s) (mResetInProgress s) (mResetPostponed s) (world s) (trace s) (queue s).
Definition set_mFlushingVideo v s := mkState (mListener s) (mSource s) (mSurface s) (mAudioSink s) (mVideoDecoder s) (mAudioDecoder s) (mRenderer s) (mAudioEOS s) (mVideoEOS s) (mScanSourcesPending s) (mScanSourcesGeneration s) (mFlushingAudio s) v (mResetInProgress s) (mResetPostponed s) (world s) (trace s) (queue s).
Definition set_mResetInProgress v s := mkState (mListener s) (mSource s) (mSurface s) (mAudioSink s) (mVideoDecoder s) (mAudioDecoder s) (mRenderer s) (mAudioEOS s) (mVideoEOS s) (mScanSourcesPending s) (mScanSourcesGeneration s) (mFlushingAudio s) (mFlushingVideo s) v (mResetPostponed s) (world s) (trace s) (queue s).
Definition set_mResetPostponed v s := mkState (mListener s) (mSource s) (mSurface s) (mAudioSink s) (mVideoDecoder s) (mAudioDecoder s) (mRenderer s) (mAudioEOS s) (mVideoEOS s) (mScanSourcesPending s) (mScanSourcesGeneration s) (mFlushingAudio s) (mFlushingVideo s) (mResetInProgress s) v (world s) (trace s) (queue s).
Definition set_world v s := mkState (mListener s) (mSource s) (mSurface s) (mAudioSink s) (mVideoDecoder s) (mAudioDecoder s) (mRenderer s) (mAudioEOS s) (mVideoEOS s) (mScanSourcesPending s) (mScanSourcesGeneration s) (mFlushingAudio s) (mFlushingVideo s) (mResetInProgress s) (mResetPostponed s) v (trace s) (queue s).
Definition set_trace v s := mkState (mListener s) (mSource s) (mSurface s) (mAudioSink s) (mVideoDecoder s) (mAudioDecoder s) (mRenderer s) (mAudioEOS s) (mVideoEOS s) (mScanSourcesPending s) (mScanSourcesGeneration s) (mFlushingAudio s) (mFlushingVideo s) (mResetInProgress s) (mResetPostponed s) (world s) v (queue s).
Definition set_queue v s := mkState (mListener s) (mSource s) (mSurface s) (mAudioSink s) (mVideoDecoder s) (mAudioDecoder s) (mRenderer s) (mAudioEOS s) (mVideoEOS s) (mScanSourcesPending s) (mScanSourcesGeneration s) (mFlushingAudio s) (mFlushingVideo s) (mResetInProgress s) (mResetPostponed s) (world s) (trace s) v.

(** A call on a collaborator, appended to the trace. *)
Definition call (c : Call) (s : State) : State := set_trace (trace s ++ [c]) s.

(** [msg->post(delayUs)] of a message addressed to the controller itself. *)
Definition post (m : Msg) (delayUs : Z) (s : State) : State :=
  set_queue (queue s ++ [(m, delayUs)]) s.

(** [NuPlayer::NuPlayer()] *)
Definition NuPlayer (w : W) : State :=
  mkState None None None None None None None
          false false false 0 NONE NONE false false w [] [].

(** [NuPlayer::setListener] *)
Definition setListener (listener : option Listener) (s : State) : State :=
  set_mListener listener s.

(** The decoder of a track. *)
Definition decoderOf (audio : bool) (s : State) : sp Decoder :=
  if audio then mAudioDecoder s else mVideoDecoder s.

Definition flushingOf (audio : bool) (s : State) : FlushStatus :=
  if audio then mFlushingAudio s else mFlushingVideo s.

Definition isNull {T : Type} (p : sp T) : bool :=
  match p with None => true | Some _ => false end.

(** [NuPlayer::IsFlushingState]: the result, and the value written to
    [*needShutdown] when the state is a flushing one. *)
Definition IsFlushingState (state : FlushStatus) : bool * option bool :=
  match state with
  | FLUSHING_DECODER => (true, Some false)
  | FLUSHING_DECODER_SHUTDOWN => (true, Some true)
  | _ => (false, None)
  end.

(** [NuPlayer::notifyListener] *)
Definition notifyListener (msg : media_event_type) (ext1 ext2 : Z) (s : State) : State :=
  match mListener s with
  | None => s
  | Some l =>
      if listener_promote l (world s)
      then call (Listener_sendEvent msg ext1 ext2) s
      else s
  end.

(** [NuPlayer::postScanSources] *)
Definition postScanSources (s : State) : State :=
  if mScanSourcesPending s then s
  else set_mScanSourcesPending true
         (post (kWhatScanSources (Some (mScanSourcesGeneration s))) 0 s).

(** [NuPlayer::finishReset] *)
Definition finishReset (s : State) : Result State :=
  CHECK (isNull (mAudioDecoder s))
   (CHECK (isNull (mVideoDecoder s))
     (Ok (notifyListener MEDIA_RESET_COMPLETE 0 0
            (set_mSource None (set_mRenderer None s))))).

(** [NuPlayer::finishFlushIfPossible] *)
Definition finishFlushIfPossible (s : State) : Result State :=
  if negb (FlushStatus_eqb (mFlushingAudio s) FLUSHED)
     && negb (FlushStatus_eqb (mFlushingAudio s) SHUT_DOWN) then Ok s
  else if negb (FlushStatus_eqb (mFlushingVideo s) FLUSHED)
          && negb (FlushStatus_eqb (mFlushingVideo s) SHUT_DOWN) then Ok s
  else
    match mRenderer s with
    | None => Abort NullRenderer
    | Some _ =>
        let s1 := call Renderer_signalTimeDiscontinuity s in
        let scanA := FlushStatus_eqb (mFlushingAudio s1) SHUT_DOWN in
        let s2 := if scanA then s1
                  else if negb (isNull (mAudioDecoder s1))
                       then call (Decoder_signalResume true) s1 else s1 in
        let scanV := FlushStatus_eqb (mFlushingVideo s2) SHUT_DOWN in
        let s3 := if scanV then s2
                  else if negb (isNull (mVideoDecoder s2))
                       then call (Decoder_signalResume false) s2 else s2 in
        let scanSourcesAgain := scanA || scanV in
        let s4 := set_mFlushingVideo NONE (set_mFlushingAudio NONE s3) in
        if mResetInProgress s4 then
          finishReset (set_mResetInProgress false s4)
        else if mResetPostponed s4 then
          Ok (set_mResetPostponed false (post kWhatReset 0 s4))
        else if scanSourcesAgain then
          Ok (postScanSources s4)
        else Ok s4
    end.

(** [NuPlayer::instantiateDecoder]; [decoder] is [&mAudioDecoder] when
    [audio] and [&mVideoDecoder] otherwise, as at both call sites.  The
    status is returned with the state. *)
Definition instantiateDecoder (audio : bool) (s : State) : Result (status_t * State) :=
  if negb (isNull (decoderOf audio s)) then Ok (OK, s)
  else
    match mSource s with
    | None => Abort NullSource
    | Some src =>
        let '(meta, w1) := source_getFormat src audio (world s) in
        let s1 := set_world w1 (call (Source_getFormat audio) s) in
        match meta with
        | None => Ok (WOULD_BLOCK, s1)
        | Some m =>
            let surface := if audio then None else mSurface s1 in
            let d := mkDecoder audio surface in
            let s2 := call (Decoder_new audio surface) s1 in
            let s3 := if audio then set_mAudioDecoder (Some d) s2
                      else set_mVideoDecoder (Some d) s2 in
            let s4 := call (Looper_registerDecoder audio) s3 in
            Ok (OK, call (Decoder_configure audio m) s4)
        end
    end.

(** [NuPlayer::flushDecoder] *)
Definition flushDecoder (audio needShutdown : bool) (s : State) : Result State :=
  let s1 := set_mScanSourcesGeneration (int32_incr (mScanSourcesGeneration s)) s in
  match decoderOf audio s1 with
  | None => Abort NullDecoder
  | Some _ =>
      let s2 := call (Decoder_signalFlush audio) s1 in
      match mRenderer s2 with
      | None => Abort NullRenderer
      | Some _ =>
          let s3 := call (Renderer_flush audio) s2 in
          let newStatus :=
            if needShutdown then FLUSHING_DECODER_SHUTDOWN else FLUSHING_DECODER in
          if audio then
            CHECK (FlushStatus_eqb (mFlushingAudio s3) NONE
                   || FlushStatus_eqb (mFlushingAudio s3) AWAITING_DISCONTINUITY)
              (let s4 := set_mFlushingAudio newStatus s3 in
               if FlushStatus_eqb (mFlushingVideo s4) NONE then
                 Ok (set_mFlushingVideo
                       (if negb (isNull (mVideoDecoder s4))
                        then AWAITING_DISCONTINUITY else FLUSHED) s4)
               else Ok s4)
          else
            CHECK (FlushStatus_eqb (mFlushingVideo s3) NONE
                   || FlushStatus_eqb (mFlushingVideo s3) AWAITING_DISCONTINUITY)
              (let s4 := set_mFlushingVideo newStatus s3 in
               if FlushStatus_eqb (mFlushingAudio s4) NONE then
                 Ok (set_mFlushingAudio
                       (if negb (isNull (mAudioDecoder s4))
                        then AWAITING_DISCONTINUITY else FLUSHED) s4)
               else Ok s4)
      end
  end.

(** [NuPlayer::feedDecoderInputData]; the status is returned with the
    state. *)
Definition feedDecoderInputData (audio : bool) (msg : CodecRequest) (s : State)
  : Result (status_t * State) :=
  match cr_reply msg with
  | None => Abort CheckFailed
  | Some reply =>
      if (audio && fst (IsFlushingState (mFlushingAudio s)))
         || (negb audio && fst (IsFlushingState (mFlushingVideo s)))
      then Ok (OK, call (Reply_post reply (ReplyErr INFO_DISCONTINUITY)) s)
      else
        match mSource s with
        | None => Abort NullSource
        | Some src =>
            let '(err, accessUnit, w1) :=
              source_dequeueAccessUnit src audio (world s) in
            let s1 := set_world w1 (call (Source_dequeueAccessUnit audio) s) in
            if status_eqb err WOULD_BLOCK then Ok (err, s1)
            else if negb (status_eqb err OK) then
              s2 <- (if status_eqb err INFO_DISCONTINUITY then
                       match accessUnit with
                       | None => Abort NullBuffer
                       | Some au =>
                           match ab_discontinuity au with
                           | None => Abort CheckFailed
                           | Some type =>
                               let formatChange := is_FORMATCHANGE type in
                               flushDecoder audio formatChange s1
                           end
                       end
                     else Ok s1) ;;
              Ok (OK, call (Reply_post reply (ReplyErr err)) s2)
            else
              Ok (OK, call (Reply_post reply (ReplyBuffer accessUnit)) s1)
        end
  end.

(** [NuPlayer::renderBuffer] *)
Definition renderBuffer (audio : bool) (msg : CodecRequest) (s : State) : Result State :=
  match cr_reply msg with
  | None => Abort CheckFailed
  | Some reply =>
      match cr_buffer msg with
      | None => Abort CheckFailed
      | Some buffer =>
          match mRenderer s with
          | None => Abort NullRenderer
          | Some _ => Ok (call (Renderer_queueBuffer audio buffer reply) s)
          end
      end
  end.

(** The [kWhatVideoNotify] / [kWhatAudioNotify] case of
    [NuPlayer::onMessageReceived]; [msg] is the message being handled,
    posted again when the source would block. *)
Definition onDecoderNotify (audio : bool) (msg : Msg)
    (codecRequest : option CodecRequest) (s : State) : Result State :=
  match codecRequest with
  | None => Abort CheckFailed
  | Some codecRequest =>
      match cr_what codecRequest with
      | None => Abort CheckFailed
      | Some kWhatFillThisBuffer =>
          r <- feedDecoderInputData audio codecRequest s ;;
          let '(err, s1) := r in
          if status_eqb err WOULD_BLOCK then
            match mSource s1 with
            | None => Abort NullSource
            | Some src =>
                let '(more, w1) := source_feedMoreTSData src (world s1) in
                let s2 := set_world w1 (call Source_feedMoreTSData s1) in
                if more then Ok (post msg 0 s2) else Ok s2
            end
          else Ok s1
      | Some kWhatEOS =>
          match mRenderer s with
          | None => Abort NullRenderer
          | Some _ => Ok (call (Renderer_queueEOS audio ERROR_END_OF_STREAM) s)
          end
      | Some kWhatFlushCompleted =>
          let flushing := if audio then mFlushingAudio s else mFlushingVideo s in
          match IsFlushingState flushing with
          | (true, Some needShutdown) =>
              let s1 := if audio then set_mFlushingAudio FLUSHED s
                        else set_mFlushingVideo FLUSHED s in
              s2 <- (if needShutdown then
                       match (if audio then mAudioDecoder s1 else mVideoDecoder s1) with
                       | None => Abort NullDecoder
                       | Some _ =>
                           let s' := call (Decoder_initiateShutdown audio) s1 in
                           Ok (if audio
                               then set_mFlushingAudio SHUTTING_DOWN_DECODER s'
                               else set_mFlushingVideo SHUTTING_DOWN_DECODER s')
                       end
                     else Ok s1) ;;
              finishFlushIfPossible s2
          | _ => Abort CheckFailed
          end
      | Some kWhatOutputFormatChanged =>
          CHECK audio
            match cr_channel_count codecRequest with
            | None => Abort CheckFailed
            | Some numChannels =>
                match cr_sample_rate codecRequest with
                | None => Abort CheckFailed
                | Some sampleRate =>
                    match mAudioSink s with
                    | None => Abort NullAudioSink
                    | Some sink =>
                        let s1 := call AudioSink_close s in
                        let '(st, w1) :=
                          sink_open sink sampleRate numChannels (world s1) in
                        let s2 := set_world w1
                                    (call (AudioSink_open sampleRate numChannels) s1) in
                        CHECK (status_eqb st OK)
                          (let s3 := call AudioSink_start s2 in
                           match mRenderer s3 with
                           | None => Abort NullRenderer
                           | Some _ => Ok (call Renderer_signalAudioSinkChanged s3)
                           end)
                    end
                end
            end
      | Some kWhatShutdownCompleted =>
          if audio then
            let s1 := set_mAudioDecoder None s in
            CHECK (FlushStatus_eqb (mFlushingAudio s1) SHUTTING_DOWN_DECODER)
              (finishFlushIfPossible (set_mFlushingAudio SHUT_DOWN s1))
          else
            let s1 := set_mVideoDecoder None s in
            CHECK (FlushStatus_eqb (mFlushingVideo s1) SHUTTING_DOWN_DECODER)
              (finishFlushIfPossible (set_mFlushingVideo SHUT_DOWN s1))
      | Some kWhatDrainThisBuffer => renderBuffer audio codecRequest s
      | Some (kWhatCodecOther _) => Abort CheckFailed
      end
  end.

(** The [kWhatScanSources] case, once the generation has been found equal
    to [mScanSourcesGeneration]: up to and including the two
    [instantiateDecoder] calls. *)
Definition scanInstantiate (s : State) : Result State :=
  let s0 := set_mScanSourcesPending false s in
  r1 <- instantiateDecoder false s0 ;;
  let s1 := snd r1 in
  if negb (isNull (mAudioSink s1)) then
    r2 <- instantiateDecoder true s1 ;;
    Ok (snd r2)
  else Ok s1.

(** The rest of the [kWhatScanSources] case; [msg] is the message being
    handled, posted again with a delay of 100 ms. *)
Definition scanFeed (msg : Msg) (s1 : State) : Result State :=
  match mSource s1 with
  | None => Abort NullSource
  | Some src =>
      let '(more, w1) := source_feedMoreTSData src (world s1) in
      let s2 := set_world w1 (call Source_feedMoreTSData s1) in
      if negb more then
        if isNull (mAudioDecoder s2) && isNull (mVideoDecoder s2)
        then Ok (notifyListener MEDIA_PLAYBACK_COMPLETE 0 0 s2)
        else Ok s2
      else if isNull (mAudioDecoder s2) || isNull (mVideoDecoder s2)
      then Ok (set_mScanSourcesPending true (post msg 100000 s2))
      else Ok s2
  end.

(** [NuPlayer::onMessageReceived] *)
Definition onMessageReceived (msg : Msg) (s : State) : Result State :=
  match msg with
  | kWhatSetDataSource source =>
      CHECK (isNull (mSource s))
        match source with
        | None => Abort CheckFailed
        | Some obj => Ok (set_mSource obj s)
        end
  | kWhatSetVideoSurface surface =>
      match surface with
      | None => Abort CheckFailed
      | Some obj => Ok (set_mSurface obj s)
      end
  | kWhatSetAudioSink sink =>
      match sink with
      | None => Abort CheckFailed
      | Some obj => Ok (set_mAudioSink obj s)
      end
  | kWhatStart =>
      let s1 := set_mVideoEOS false (set_mAudioEOS false s) in
      match mSource s1 with
      | None => Abort NullSource
      | Some src =>
          let s2 := set_world (source_start src (world s1)) (call Source_start s1) in
          let s3 := set_mRenderer (Some (mkRenderer (mAudioSink s2)))
                      (call (Renderer_new (mAudioSink s2)) s2) in
          let s4 := call Looper_registerRenderer s3 in
          Ok (postScanSources s4)
      end
  | kWhatScanSources generation =>
      match generation with
      | None => Abort CheckFailed
      | Some generation =>
          if negb (Z.eqb generation (mScanSourcesGeneration s)) then Ok s
          else
            s1 <- scanInstantiate s ;;
            scanFeed msg s1
      end
  | kWhatVideoNotify codecRequest => onDecoderNotify false msg codecRequest s
  | kWhatAudioNotify codecRequest => onDecoderNotify true msg codecRequest s
  | kWhatRendererNotify what audio =>
      match what with
      | None => Abort CheckFailed
      | Some Renderer_kWhatEOS =>
          match audio with
          | None => Abort CheckFailed
          | Some audio =>
              let s1 := if negb (Z.eqb audio 0) then set_mAudioEOS true s
                        else set_mVideoEOS true s in
              if (mAudioEOS s1 || isNull (mAudioDecoder s1))
                 && (mVideoEOS s1 || isNull (mVideoDecoder s1))
              then Ok (notifyListener MEDIA_PLAYBACK_COMPLETE 0 0 s1)
              else Ok s1
          end
      | Some Renderer_kWhatFlushComplete =>
          match audio with
          | None => Abort CheckFailed
          | Some _ => Ok s
          end
      | Some (Renderer_kWhatOther _) => Abort CheckFailed
      end
  | kWhatMoreDataQueued => Ok s
  | kWhatReset =>
      if negb (FlushStatus_eqb (mFlushingAudio s) NONE)
         || negb (FlushStatus_eqb (mFlushingVideo s) NONE)
      then Ok (set_mResetPostponed true s)
      else if isNull (mAudioDecoder s) && isNull (mVideoDecoder s)
      then finishReset s
      else
        s1 <- (if negb (isNull (mAudioDecoder s))
               then flushDecoder true true s else Ok s) ;;
        s2 <- (if negb (isNull (mVideoDecoder s1))
               then flushDecoder false true s1 else Ok s1) ;;
        Ok (set_mResetInProgress true s2)
  | kWhatUnknown _ => Abort Trespass
  end.

(** Dispatching a list of messages one after the other, the process
    ending at the first abort. *)
Fixpoint run (msgs : list Msg) (s : State) : Result State :=
  match msgs with
  | [] => Ok s
  | m :: rest => s1 <- onMessageReceived m s ;; run rest s1
  end.

(** Taking the [n]-th message the controller posted to itself out of the
    queue and dispatching it; nothing happens when there is none. *)
Definition dispatchQueued (n : nat) (s : State) : Result State :=
  match nth_error (queue s) n with
  | None => Ok s
  | Some (m, _) =>
      onMessageReceived m
        (set_queue (firstn n (queue s) ++ skipn (S n) (queue s)) s)
  end.

(** One turn of the looper: a message from the client, a decoder or the
    renderer, or one of the controller's own posted messages. *)
Inductive Event : Type :=
| External (m : Msg)
| Queued (n : nat).

Definition step (e : Event) (s : State) : Result State :=
  match e with
  | External m => onMessageReceived m s
  | Queued n => dispatchQueued n s
  end.

Fixpoint steps (es : list Event) (s : State) : Result State :=
  match es with
  | [] => Ok s
  | e :: rest => s1 <- step e s ;; steps rest s1
  end.

End Controller.

Arguments State W : clear implicits.

(* ------------------------------------------------------------------ *)
(** ** A scripted world

    A world whose source answers from prepared lists, one answer per
    call, and falls back to "nothing yet" when a list is used up.  It
    serves to run the controller on concrete inputs. *)

Record Script : Type := mkScript {
  fmtVideo : list (sp MetaData);
  fmtAudio : list (sp MetaData);
  feedMore : list bool;
  auVideo : list (status_t * sp ABuffer);
  auAudio : list (status_t * sp ABuffer);
  sinkOpen : list status_t;
  listenerAlive : bool
}.

Definition script_getFormat (audio : bool) (w : Script) : sp MetaData * Script :=
  if audio then
    match fmtAudio w with
    | [] => (None, w)
    | m :: rest =>
        (m, mkScript (fmtVideo w) rest (feedMore w) (auVideo w) (auAudio w)
                     (sinkOpen w) (listenerAlive w))
    end
  else
    match fmtVideo w with
    | [] => (None, w)
    | m :: rest =>
        (m, mkScript rest (fmtAudio w) (feedMore w) (auVideo w) (auAudio w)
                     (sinkOpen w) (listenerAlive w))
    end.

Definition script_feedMore (w : Script) : bool * Script :=
  match feedMore w with
  | [] => (false, w)
  | b :: rest =>
      (b, mkScript (fmtVideo w) (fmtAudio w) rest (auVideo w) (auAudio w)
                   (sinkOpen w) (listenerAlive w))
  end.

Definition script_dequeue (audio : bool) (w : Script) : status_t * sp ABuffer * Script :=
  if audio then
    match auAudio w with
    | [] => (WOULD_BLOCK, None, w)
    | (st, au) :: rest =>
        (st, au, mkScript (fmtVideo w) (fmtAudio w) (feedMore w) (auVideo w) rest
                          (sinkOpen w) (listenerAlive w))
    end
  else
    match auVideo w with
    | [] => (WOULD_BLOCK, None, w)
    | (st, au) :: rest =>
        (st, au, mkScript (fmtVideo w) (fmtAudio w) (feedMore w) rest (auAudio w)
                          (sinkOpen w) (listenerAlive w))
    end.

Definition script_sinkOpen (w : Script) : status_t * Script :=
  match sinkOpen w with
  | [] => (OK, w)
  | st :: rest =>
      (st, mkScript (fmtVideo w) (fmtAudio w) (feedMore w) (auVideo w) (auAudio w)
                    rest (listenerAlive w))
  end.

#[export] Instance ScriptWorld : World Script := {
  source_start := fun _ w => w;
  source_getFormat := fun _ audio w => script_getFormat audio w;
  source_feedMoreTSData := fun _ w => script_feedMore w;
  source_dequeueAccessUnit := fun _ audio w => script_dequeue audio w;
  sink_open := fun _ _ _ w => script_sinkOpen w;
  listener_promote := fun _ w => listenerAlive w
}.

(** The state a run ends in, or where it started if the process
    aborted. *)
Definition stateOr {W : Type} (d : State W) (r : Result (State W)) : State W :=
  match r with
  | Ok s => s
  | Abort _ => d
  end.

(** How many [PLAYBACK_COMPLETE] events the listener has been sent. *)
Definition isPlaybackComplete (c : Call) : bool :=
  match c with
  | Listener_sendEvent MEDIA_PLAYBACK_COMPLETE _ _ => true
  | _ => false
  end.

Definition playbackCompletes (tr : list Call) : nat :=
  length (filter isPlaybackComplete tr).

(** The posted messages that are a [kWhatReset]. *)
Definition isReset (e : Msg * Z) : bool :=
  match fst e with
  | kWhatReset => true
  | _ => false
  end.

Definition postedResets (q : list (Msg * Z)) : nat := length (filter isReset q).

(** The posted [kWhatScanSources] messages that carry generation [g]. *)
Definition isScanOf (g : Z) (e : Msg * Z) : bool :=
  match fst e with
  | kWhatScanSources (Some g') => Z.eqb g' g
  | _ => false
  end.

Definition postedScans (g : Z) (q : list (Msg * Z)) : nat :=
  length (filter (isScanOf g) q).

(* ------------------------------------------------------------------ *)
(** ** Notions used in the statements *)

(** A track whose flush has been acknowledged. *)
Definition quiescent (st : FlushStatus) : bool :=
  FlushStatus_eqb st FLUSHED || FlushStatus_eqb st SHUT_DOWN.

(** The states in which the controller waits for an answer of the track's
    decoder. *)
Definition needsDecoder (st : FlushStatus) : bool :=
  match st with
  | FLUSHING_DECODER | FLUSHING_DECODER_SHUTDOWN | SHUTTING_DOWN_DECODER => true
  | _ => false
  end.

(** The messages whose handler contains a
    [notifyListener(MEDIA_PLAYBACK_COMPLETE, 0, 0)]. *)
Definition sendsPlaybackComplete (m : Msg) : bool :=
  match m with
  | kWhatScanSources _ => true
  | kWhatRendererNotify (Some Renderer_kWhatEOS) _ => true
  | _ => false
  end.

Definition countSenders (msgs : list Msg) : nat :=
  length (filter sendsPlaybackComplete msgs).

(** The notification of a track's decoder that carries [cr]. *)
Definition notifyMsg (audio : bool) (cr : CodecRequest) : Msg :=
  if audio then kWhatAudioNotify (Some cr) else kWhatVideoNotify (Some cr).

(** The shutdown acknowledgement of a track's decoder. *)
Definition isShutdownCompleted (audio : bool) (m : Msg) : bool :=
  match m with
  | kWhatAudioNotify (Some cr) =>
      audio && match cr_what cr with
               | Some kWhatShutdownCompleted => true
               | _ => false
               end
  | kWhatVideoNotify (Some cr) =>
      negb audio && match cr_what cr with
                    | Some kWhatShutdownCompleted => true
                    | _ => false
                    end
  | _ => false
  end.

(** The messages whose handler can reach [flushDecoder]: a reset and a
    decoder's request for input. *)
Definition reachesFlushDecoder (m : Msg) : bool :=
  match m with
  | kWhatReset => true
  | kWhatAudioNotify (Some cr) | kWhatVideoNotify (Some cr) =>
      match cr_what cr with
      | Some kWhatFillThisBuffer => true
      | _ => false
      end
  | _ => false
  end.

(** The states of a track whose decoder has been asked to shut down, or
    that had no decoder to flush. *)
Definition shutdownRequested (st : FlushStatus) : bool :=
  match st with
  | FLUSHING_DECODER_SHUTDOWN | SHUTTING_DOWN_DECODER | SHUT_DOWN | FLUSHED => true
  | _ => false
  end.

(** Kinds of calls, and how many of a kind a trace holds. *)
Definition isListenerEvent (c : Call) : bool :=
  match c with
  | Listener_sendEvent _ _ _ => true
  | _ => false
  end.

Definition isResetComplete (c : Call) : bool :=
  match c with
  | Listener_sendEvent MEDIA_RESET_COMPLETE _ _ => true
  | _ => false
  end.

Definition isFlushEnd (c : Call) : bool :=
  match c with
  | Renderer_signalTimeDiscontinuity | Decoder_signalResume _ => true
  | _ => false
  end.


Definition countCalls (p : Call -> bool) (tr : list Call) : nat :=
  length (filter p tr).

(** A kind of calls that holds nothing but listener events and the calls
    that end a flush. *)
Definition loudOnly (p : Call -> bool) : Prop :=
  forall c, p c = true -> isListenerEvent c || isFlushEnd c = true.

Section Notions.

Context {W : Type} `{World W}.

(** A track that waits for its decoder has one. *)
Definition decoderInv (s : State W) : Prop :=
  (needsDecoder (mFlushingAudio s) = true -> mAudioDecoder s <> None)
  /\ (needsDecoder (mFlushingVideo s) = true -> mVideoDecoder s <> None).

(** Both tracks are at EOS or have no decoder. *)
Definition eosOrAbsent (s : State W) : bool :=
  (mAudioEOS s || isNull (mAudioDecoder s))
  && (mVideoEOS s || isNull (mVideoDecoder s)).

(** The calls of a completed flush, in the words of section 4.7: the
    renderer's time discontinuity, then a resume of every decoder that is
    still there and whose track did not shut down. *)
Definition flushCompletionCalls (s : State W) : list Call :=
  [Renderer_signalTimeDiscontinuity]
  ++ (if negb (FlushStatus_eqb (mFlushingAudio s) SHUT_DOWN)
         && negb (isNull (mAudioDecoder s))
      then [Decoder_signalResume true] else [])
  ++ (if negb (FlushStatus_eqb (mFlushingVideo s) SHUT_DOWN)
         && negb (isNull (mVideoDecoder s))
      then [Decoder_signalResume false] else []).

(** The state of a completed flush before the reset and scan decisions,
    in the words of section 4.7: the calls above made and both tracks
    back to [NONE]. *)
Definition flushCompleted (s : State W) : State W :=
  set_mFlushingVideo NONE
    (set_mFlushingAudio NONE
       (set_trace (trace s ++ flushCompletionCalls s) s)).

(** The two tracks are idle together. *)
Definition idleTogether (s : State W) : Prop :=
  mFlushingAudio s = NONE <-> mFlushingVideo s = NONE.

(** A track that awaits its discontinuity has a decoder. *)
Definition awaitingHasDecoder (s : State W) : Prop :=
  (mFlushingAudio s = AWAITING_DISCONTINUITY -> mAudioDecoder s <> None)
  /\ (mFlushingVideo s = AWAITING_DISCONTINUITY -> mVideoDecoder s <> None).

(** While a reset is in progress, both tracks are on their way to a
    shutdown. *)
Definition resetShutsDown (s : State W) : Prop :=
  mResetInProgress s = true ->
  shutdownRequested (mFlushingAudio s) = true
  /\ shutdownRequested (mFlushingVideo s) = true.

Definition trackInv (s : State W) : Prop :=
  idleTogether s /\ awaitingHasDecoder s /\ resetShutsDown s.

(** A track is in one of the two states [IsFlushingState] accepts. *)
Definition someFlushing (s : State W) : bool :=
  fst (IsFlushingState (mFlushingAudio s))
  || fst (IsFlushingState (mFlushingVideo s)).

(** Nothing is left of a playback: no source, no renderer, no decoder,
    both tracks idle. *)
Definition tornDown (s : State W) : Prop :=
  mSource s = None /\ mRenderer s = None
  /\ mAudioDecoder s = None /\ mVideoDecoder s = None
  /\ mFlushingAudio s = NONE /\ mFlushingVideo s = NONE.

(** A step that keeps the listener and makes only calls that are
    neither listener events nor the end of a flush. *)
Definition quietStep (s s' : State W) : Prop :=
  mListener s' = mListener s
  /\ forall p, loudOnly p -> countCalls p (trace s') = countCalls p (trace s).

(** What a step may do otherwise: it never changes the listener; it ends
    a flush only into two idle tracks; it sends MEDIA_RESET_COMPLETE only
    when nothing is left of the playback; and without a listener it sends
    no event. *)
Definition loudEffect (s s' : State W) : Prop :=
  mListener s' = mListener s
  /\ (countCalls isFlushEnd (trace s') <> countCalls isFlushEnd (trace s) ->
      mFlushingAudio s' = NONE /\ mFlushingVideo s' = NONE)
  /\ (countCalls isResetComplete (trace s') <> countCalls isResetComplete (trace s) ->
      tornDown s')
  /\ (mListener s = None ->
      countCalls isListenerEvent (trace s') = countCalls isListenerEvent (trace s)).

(** The message an event dispatches in state [s]. *)
Definition eventMsg (e : Event) (s : State W) : option Msg :=
  match e with
  | External m => Some m
  | Queued n => option_map fst (nth_error (queue s) n)
  end.

(** A fill request on behalf of a track for which the controller holds
    no decoder. *)
Definition orphanFill (m : Msg) (s : State W) : bool :=
  match m with
  | kWhatAudioNotify (Some cr) =>
      match cr_what cr with
      | Some kWhatFillThisBuffer => isNull (mAudioDecoder s)
      | _ => false
      end
  | kWhatVideoNotify (Some cr) =>
      match cr_what cr with
      | Some kWhatFillThisBuffer => isNull (mVideoDecoder s)
      | _ => false
      end
  | _ => false
  end.

(** A run in which decoders ask for input only while the controller
    holds them. *)
Fixpoint fillsFromDecoders (es : list Event) (s : State W) : Prop :=
  match es with
  | [] => True
  | e :: rest =>
      (forall m, eventMsg e s = Some m -> orphanFill m s = false)
      /\ (forall s1, step e s = Ok s1 -> fillsFromDecoders rest s1)
  end.

(** A flush is under way: a track is not idle. *)
Definition flushUnderWay (s : State W) : Prop :=
  mFlushingAudio s <> NONE \/ mFlushingVideo s <> NONE.

(** A postponed reset waits for the end of a flush that is not the flush
    of a reset. *)
Definition resetWaits (s : State W) : Prop :=
  flushUnderWay s /\ mResetPostponed s = true /\ mResetInProgress s = false.

(** The flush has ended and the postponed reset has been posted: both
    tracks are idle, the flag is clear, and the queue is [q] followed by
    one kWhatReset without delay. *)
Definition resetReposted (q : list (Msg * Z)) (s : State W) : Prop :=
  mFlushingAudio s = NONE /\ mFlushingVideo s = NONE
  /\ mResetPostponed s = false /\ mResetInProgress s = false
  /\ queue s = q ++ [(kWhatReset, 0)].

(** What a handler may do while a postponed reset waits, on the way
    from [s] to [s']: keep it waiting and post no kWhatReset, or end the
    flush and post the reset. *)
Definition waitsOrReposted (s s' : State W) : Prop :=
  (resetWaits s' /\ exists l, queue s' = queue s ++ l /\ postedResets l = 0%nat)
  \/ resetReposted (queue s) s'.

(** The state in which the handler of an event runs: one of the
    controller's own messages has been taken out of the queue. *)
Definition taken (e : Event) (s : State W) : State W :=
  match e with
  | External _ => s
  | Queued n =>
      match nth_error (queue s) n with
      | None => s
      | Some _ => set_queue (firstn n (queue s) ++ skipn (S n) (queue s)) s
      end
  end.

(** The messages the handler of [e] posted on the way from [s] to [s1]:
    what the queue of [s1] holds beyond the queue the handler started
    with. *)
Definition postedBy (e : Event) (s s1 : State W) : list (Msg * Z) :=
  skipn (length (queue (taken e s))) (queue s1).

(** The number of kWhatReset messages posted along a run. *)
Fixpoint resetPosts (es : list Event) (s : State W) : nat :=
  match es with
  | [] => 0%nat
  | e :: rest =>
      match step e s with
      | Ok s1 => (postedResets (postedBy e s s1) + resetPosts rest s1)%nat
      | Abort _ => 0%nat
      end
  end.

End Notions.

(* ------------------------------------------------------------------ *)
(** ** Concrete runs *)

Definition fillReq (r : Reply) : CodecRequest :=
  mkCodecRequest (Some kWhatFillThisBuffer) (Some r) None None None.

Definition codecNote (w : CodecWhat) : CodecRequest :=
  mkCodecRequest (Some w) None None None None.

Definition eosNote (audio : Z) : Msg :=
  kWhatRendererNotify (Some Renderer_kWhatEOS) (Some audio).

Definition player (w : Script) : State Script :=
  setListener (Some 1%nat) (NuPlayer w).

Definition setup : list Event :=
  [External (kWhatSetDataSource (Some (Some 1%nat)));
   External (kWhatSetAudioSink (Some (Some 2%nat)));
   External kWhatStart].

(** Both tracks play; the video source then meets a time discontinuity
    while the audio source has an access unit ready. *)
Definition avWorld : Script :=
  mkScript [Some 1%nat] [Some 2%nat] [true]
           [(INFO_DISCONTINUITY, Some (mkABuffer 0 (Some (DISCONTINUITY_OTHER 1))))]
           [(OK, Some (mkABuffer 9 None))]
           [] true.

(** Set up, started and scanned once: both decoders exist. *)
Definition avPlaying : State Script :=
  stateOr (player avWorld) (steps (setup ++ [Queued 0%nat]) (player avWorld)).

(** Then the video decoder asked for input and met the discontinuity. *)
Definition avVideoFlushing : State Script :=
  stateOr avPlaying
    (step (External (kWhatVideoNotify (Some (fillReq 3%nat)))) avPlaying).

(** Only the audio track is found at first; the audio source then meets a
    discontinuity of kind [type]. *)
Definition audioWorld (type : DiscontinuityType) : Script :=
  mkScript [None; Some 3%nat] [Some 5%nat] [true; true]
           []
           [(INFO_DISCONTINUITY, Some (mkABuffer 0 (Some type)))]
           [] true.

(** Set up and started. *)
Definition audioStarted (type : DiscontinuityType) : State Script :=
  stateOr (player (audioWorld type)) (steps setup (player (audioWorld type))).

(** Then scanned once: the audio decoder exists, the scan is posted
    again. *)
Definition audioPlaying (type : DiscontinuityType) : State Script :=
  stateOr (audioStarted type) (step (Queued 0%nat) (audioStarted type)).

(** Then the audio decoder asked for input and met the discontinuity. *)
Definition audioFlushing (type : DiscontinuityType) : State Script :=
  stateOr (audioPlaying type)
    (step (External (kWhatAudioNotify (Some (fillReq 7%nat)))) (audioPlaying type)).

(** A reset arrives during that flush. *)
Definition resetWhileFlushing : State Script :=
  stateOr (audioFlushing (DISCONTINUITY_OTHER 1))
    (step (External kWhatReset) (audioFlushing (DISCONTINUITY_OTHER 1))).

(** The state in which the handler of the decoder's flush acknowledgement
    then calls [finishFlushIfPossible]. *)
Definition resetWhileFlushingAcked : State Script :=
  set_mFlushingAudio FLUSHED resetWhileFlushing.

(** A reset during playback starts the flush for the reset. *)
Definition resetOnce : State Script :=
  stateOr (audioPlaying DISCONTINUITY_FORMATCHANGE)
    (step (External kWhatReset) (audioPlaying DISCONTINUITY_FORMATCHANGE)).

(** A second reset arrives while that flush is under way. *)
Definition resetTwice : State Script :=
  stateOr resetOnce (step (External kWhatReset) resetOnce).

Definition shutdownEvents : list Event :=
  [External (kWhatAudioNotify (Some (codecNote kWhatFlushCompleted)));
   External (kWhatAudioNotify (Some (codecNote kWhatShutdownCompleted)))].

Definition resetTwiceDone : State Script :=
  stateOr resetTwice (steps shutdownEvents resetTwice).

(** The state in which the handler of the shutdown acknowledgement calls
    [finishFlushIfPossible] during that reset. *)
Definition resetTwiceAcked : State Script :=
  set_mFlushingAudio SHUT_DOWN
    (set_mAudioDecoder None
       (stateOr resetTwice
          (step (External (kWhatAudioNotify (Some (codecNote kWhatFlushCompleted))))
                resetTwice))).

(** A format change on the audio track while the delayed scan is still
    in the queue: the stale scan is dropped, the decoder flushes and
    shuts down. *)
Definition formatChangeDone : State Script :=
  stateOr (audioFlushing DISCONTINUITY_FORMATCHANGE)
    (steps (Queued 0%nat :: shutdownEvents) (audioFlushing DISCONTINUITY_FORMATCHANGE)).

(** The state in which the handler of the shutdown acknowledgement calls
    [finishFlushIfPossible] after that format change. *)
Definition formatChangeAcked : State Script :=
  set_mFlushingAudio SHUT_DOWN
    (set_mAudioDecoder None
       (stateOr (audioFlushing DISCONTINUITY_FORMATCHANGE)
          (steps [Queued 0%nat;
                  External (kWhatAudioNotify (Some (codecNote kWhatFlushCompleted)))]
                 (audioFlushing DISCONTINUITY_FORMATCHANGE)))).

(** Only the audio track exists and the source has no more data for the
    time being, so that the scan is not posted again; the audio source
    then meets a format change, and the client calls [start()] a second
    time while the decoder flushes: a scan of the new generation is
    posted.  Then the decoder acknowledges the flush. *)
Definition dryWorld : Script :=
  mkScript [None] [Some 5%nat] [false] []
           [(INFO_DISCONTINUITY, Some (mkABuffer 0 (Some DISCONTINUITY_FORMATCHANGE)))]
           [] true.

Definition restartEvents : list Event :=
  setup
  ++ [Queued 0%nat;
      External (kWhatAudioNotify (Some (fillReq 7%nat)));
      External kWhatStart;
      External (kWhatAudioNotify (Some (codecNote kWhatFlushCompleted)))].

Definition restarted : State Script :=
  stateOr (player dryWorld) (steps restartEvents (player dryWorld)).

(** The state in which the handler of the shutdown acknowledgement then
    calls [finishFlushIfPossible]. *)
Definition restartedAcked : State Script :=
  set_mFlushingAudio SHUT_DOWN (set_mAudioDecoder None restarted).

Definition restartedDone : State Script :=
  stateOr restarted
    (step (External (kWhatAudioNotify (Some (codecNote kWhatShutdownCompleted))))
          restarted).

(** One epoch without any reset: the audio track ends before the video
    track has been found, then the video track is found and ends. *)
Definition lateVideoMsgs : list Msg :=
  [kWhatSetDataSource (Some (Some 1%nat));
   kWhatSetAudioSink (Some (Some 2%nat));
   kWhatStart;
   kWhatScanSources (Some 0);
   eosNote 1;
   kWhatScanSources (Some 0);
   eosNote 0].

Definition lateVideoDone : State Script :=
  stateOr (player (audioWorld DISCONTINUITY_FORMATCHANGE))
    (run lateVideoMsgs (player (audioWorld DISCONTINUITY_FORMATCHANGE))).

(** A source without any track and without data. *)
Definition emptyWorld : Script := mkScript [] [] [] [] [] [] true.

Definition emptyStarted : State Script :=
  stateOr (player emptyWorld) (steps setup (player emptyWorld)).





(** The flush acknowledgement that ends the flush of [resetWhileFlushing],
    then the dispatch of the reset posted at that moment. *)
Definition flushAck : Event :=
  External (kWhatAudioNotify (Some (codecNote kWhatFlushCompleted))).

Definition resetReposting : State Script :=
  stateOr resetWhileFlushing (step flushAck resetWhileFlushing).

Definition resetExecuted : State Script :=
  stateOr resetReposting (step (Queued 1%nat) resetReposting).

(* ------------------------------------------------------------------ *)
(** ** Proof tools *)

Ltac break_match :=
  match goal with
  | H : context [match ?x with _ => _ end] |- _ => destruct x eqn:?
  | |- context [match ?x with _ => _ end] => destruct x eqn:?
  end.

Ltac inv_ok :=
  repeat match goal with
  | H : Ok _ = Ok _ |- _ => inversion H; clear H; subst
  | H : Abort _ = Ok _ |- _ => discriminate H
  | H : Ok _ = Abort _ |- _ => discriminate H
  | H : Abort _ = Abort _ |- _ => inversion H; clear H; subst
  | H : (_, _) = (_, _) |- _ => inversion H; clear H; subst
  end.

Ltac crush := repeat (break_match; try discriminate; inv_ok); inv_ok.

Lemma int32_incr_in_range (g : Z) :
  INT32_MIN <= g < INT32_MAX -> int32_incr g = g + 1.
Proof.
  unfold INT32_MIN, INT32_MAX, int32_incr, int32_wrap. intros Hg.
  rewrite Z.mod_small by lia. lia.
Qed.

Lemma int32_incr_neq (g : Z) : int32_incr g <> g.
Proof.
  unfold int32_incr, int32_wrap.
  pose proof (Z.mod_pos_bound (g + 1 + 2147483648) 4294967296 ltac:(lia)) as Hb.
  destruct (Z_lt_le_dec g (-2147483648)) as [Hlo|Hlo]; [lia|].
  destruct (Z_lt_le_dec g 2147483647) as [Hhi|Hhi].
  - rewrite Z.mod_small by lia. lia.
  - destruct (Z.eq_dec g 2147483647) as [->|Hne]; [vm_compute; discriminate | lia].
Qed.

Lemma playbackCompletes_app (a b : list Call) :
  playbackCompletes (a ++ b) = (playbackCompletes a + playbackCompletes b)%nat.
Proof. unfold playbackCompletes. now rewrite filter_app, length_app. Qed.

Lemma playbackCompletes_snoc (a : list Call) (c : Call) :
  playbackCompletes (a ++ [c])
  = (playbackCompletes a + if isPlaybackComplete c then 1 else 0)%nat.
Proof.
  rewrite playbackCompletes_app. unfold playbackCompletes. simpl.
  destruct (isPlaybackComplete c); reflexivity.
Qed.

Ltac pc_simpl :=
  simpl in *; rewrite ?playbackCompletes_snoc in *; simpl in *; try lia.

Section Properties.

Context {W : Type} `{World W}.

Implicit Types s : State W.

Local Abbreviation completes s := (playbackCompletes (trace s)).

(* ------------------------------------------------------------------ *)
(** ** The listener *)

Lemma notifyListener_fields m e1 e2 s :
  let s' := notifyListener m e1 e2 s in
  mAudioDecoder s' = mAudioDecoder s /\ mVideoDecoder s' = mVideoDecoder s
  /\ mFlushingAudio s' = mFlushingAudio s /\ mFlushingVideo s' = mFlushingVideo s
  /\ queue s' = queue s /\ mScanSourcesPending s' = mScanSourcesPending s
  /\ mAudioEOS s' = mAudioEOS s /\ mVideoEOS s' = mVideoEOS s.
Proof.
  unfold notifyListener. destruct (mListener s); simpl; auto 10.
  destruct (listener_promote _ _); simpl; auto 10.
Qed.

Lemma notifyListener_live m e1 e2 s l :
  mListener s = Some l -> listener_promote l (world s) = true ->
  notifyListener m e1 e2 s = call (Listener_sendEvent m e1 e2) s.
Proof. unfold notifyListener. now intros -> ->. Qed.

Lemma notifyListener_completes m e1 e2 s :
  completes (notifyListener m e1 e2 s)
  = (completes s
     + match m with
       | MEDIA_PLAYBACK_COMPLETE =>
           match mListener s with
           | Some l => if listener_promote l (world s) then 1 else 0
           | None => 0
           end
       | MEDIA_RESET_COMPLETE => 0
       end)%nat.
Proof.
  unfold notifyListener. destruct (mListener s); [|destruct m; simpl; lia].
  destruct (listener_promote _ _); destruct m; pc_simpl.
Qed.

Lemma eosOrAbsent_notifyListener m e1 e2 s :
  eosOrAbsent (notifyListener m e1 e2 s) = eosOrAbsent s.
Proof.
  destruct (notifyListener_fields m e1 e2 s) as (Ha & Hv & _ & _ & _ & _ & Hae & Hve).
  unfold eosOrAbsent. now rewrite Ha, Hv, Hae, Hve.
Qed.

(* ------------------------------------------------------------------ *)
(** ** The flush machine *)

Lemma flushDecoder_generation audio needShutdown s s' :
  flushDecoder audio needShutdown s = Ok s' ->
  mScanSourcesGeneration s' = int32_incr (mScanSourcesGeneration s).
Proof.
  unfold flushDecoder, CHECK. intros Hf. crush; reflexivity.
Qed.

Lemma stale_scan_dropped (generation : Z) s :
  generation <> mScanSourcesGeneration s ->
  onMessageReceived (kWhatScanSources (Some generation)) s = Ok s.
Proof.
  intros Hg. simpl.
  destruct (Z.eqb_spec generation (mScanSourcesGeneration s));
    [contradiction | reflexivity].
Qed.

Lemma finishFlushIfPossible_not_quiescent s :
  quiescent (mFlushingAudio s) && quiescent (mFlushingVideo s) = false ->
  finishFlushIfPossible s = Ok s.
Proof.
  unfold quiescent, finishFlushIfPossible. intros Hq.
  destruct (mFlushingAudio s), (mFlushingVideo s); simpl in *;
    try reflexivity; discriminate.
Qed.

Lemma finishFlushIfPossible_quiescent s :
  quiescent (mFlushingAudio s) && quiescent (mFlushingVideo s) = true ->
  mRenderer s <> None ->
  finishFlushIfPossible s
  = if mResetInProgress s then
      finishReset (set_mResetInProgress false (flushCompleted s))
    else if mResetPostponed s then
      Ok (set_mResetPostponed false (post kWhatReset 0 (flushCompleted s)))
    else if FlushStatus_eqb (mFlushingAudio s) SHUT_DOWN
            || FlushStatus_eqb (mFlushingVideo s) SHUT_DOWN then
      Ok (postScanSources (flushCompleted s))
    else Ok (flushCompleted s).
Proof.
  unfold quiescent, finishFlushIfPossible, flushCompleted, flushCompletionCalls.
  intros Hq Hr.
  destruct s as [l so su si vd ad r ae ve pe g fa fv rip rp w t q]; simpl in *.
  destruct r; [|congruence].
  destruct fa, fv; simpl in *; try discriminate;
    destruct ad, vd; simpl; unfold call; simpl;
    rewrite <- ?app_assoc; simpl; destruct rip, rp; reflexivity.
Qed.

(* ------------------------------------------------------------------ *)
(** ** A track that waits for its decoder has one *)


Lemma decoderInv_notifyListener m e1 e2 s :
  decoderInv s -> decoderInv (notifyListener m e1 e2 s).
Proof.
  destruct (notifyListener_fields m e1 e2 s) as (Ha & Hv & Hfa & Hfv & _).
  unfold decoderInv. now rewrite Ha, Hv, Hfa, Hfv.
Qed.

Lemma flushDecoder_inv audio needShutdown s s' :
  flushDecoder audio needShutdown s = Ok s' -> decoderInv s -> decoderInv s'.
Proof.
  destruct s as [l so su si vd ad r ae ve pe g fa fv rip rp w t q].
  unfold flushDecoder, CHECK, decoderInv. simpl. intros Hf [Ha Hv].
  destruct audio; simpl in *; destruct ad, vd, r; try discriminate;
    destruct fa, fv; simpl in *; inv_ok; simpl; split; intros;
    try discriminate; auto.
Qed.

Lemma finishReset_inv s s' :
  finishReset s = Ok s' -> decoderInv s -> decoderInv s'.
Proof.
  unfold finishReset, CHECK. intros Hf Hi. crush.
  now apply decoderInv_notifyListener.
Qed.

Lemma finishFlushIfPossible_inv s s' :
  finishFlushIfPossible s = Ok s' -> decoderInv s -> decoderInv s'.
Proof.
  unfold finishFlushIfPossible. intros Hf Hi.
  repeat (break_match; try discriminate); inv_ok; try exact Hi;
    try (apply finishReset_inv in Hf; [exact Hf|]);
    unfold decoderInv, postScanSources; repeat break_match; simpl;
    split; discriminate.
Qed.

Lemma instantiateDecoder_inv audio s st s' :
  instantiateDecoder audio s = Ok (st, s') -> decoderInv s -> decoderInv s'.
Proof.
  unfold instantiateDecoder, decoderInv. intros Hf [Ha Hv].
  repeat (break_match; try discriminate); inv_ok; simpl; auto;
    split; intros; try discriminate; auto.
Qed.

Lemma scanInstantiate_inv s s' :
  scanInstantiate s = Ok s' -> decoderInv s -> decoderInv s'.
Proof.
  unfold scanInstantiate, bind. intros Hf Hi.
  repeat (break_match; try discriminate); inv_ok;
    repeat match goal with
      | Hd : instantiateDecoder _ _ = Ok ?p |- _ =>
          is_var p; destruct p; simpl in *
      | Hd : instantiateDecoder _ _ = Ok (_, _) |- _ =>
          apply instantiateDecoder_inv in Hd; [|assumption]
      end; assumption.
Qed.

Lemma feedDecoderInputData_inv audio msg s st s' :
  feedDecoderInputData audio msg s = Ok (st, s') -> decoderInv s -> decoderInv s'.
Proof.
  unfold feedDecoderInputData, bind. intros Hf Hi.
  repeat (break_match; try discriminate); inv_ok; try exact Hi;
    match goal with
    | Hfl : flushDecoder _ _ _ = Ok _ |- _ =>
        apply flushDecoder_inv in Hfl; [exact Hfl | exact Hi]
    end.
Qed.

Lemma onDecoderNotify_inv audio msg cr s s' :
  onDecoderNotify audio msg cr s = Ok s' -> decoderInv s -> decoderInv s'.
Proof.
  unfold onDecoderNotify, bind, CHECK, renderBuffer. intros Hf Hi.
  repeat (break_match; try discriminate); inv_ok; try exact Hi;
    try match goal with
      | Hfd : feedDecoderInputData _ _ _ = Ok _ |- _ =>
          apply feedDecoderInputData_inv in Hfd; [exact Hfd | exact Hi]
      end;
    try (apply finishFlushIfPossible_inv in Hf; [exact Hf|];
         destruct Hi as [Ha Hv]; unfold decoderInv, IsFlushingState in *;
         repeat break_match; simpl in *; inv_ok;
         split; intros; try discriminate; auto; congruence).
Qed.

Ltac inv_step :=
  match goal with
  | Hf : flushDecoder _ _ ?s = Ok _ |- _ =>
      apply flushDecoder_inv in Hf; [|assumption]
  | Hf : scanInstantiate ?s = Ok _ |- _ =>
      apply scanInstantiate_inv in Hf; [|assumption]
  | Hf : finishReset ?s = Ok _ |- _ =>
      apply finishReset_inv in Hf; [|assumption]
  end.

Lemma onMessageReceived_inv m s s' :
  onMessageReceived m s = Ok s' -> decoderInv s -> decoderInv s'.
Proof.
  destruct m; simpl; unfold CHECK, bind, scanFeed, postScanSources;
    intros Hf Hi;
    try (eapply onDecoderNotify_inv; eassumption);
    repeat (break_match; try discriminate); inv_ok;
    repeat inv_step;
    try apply decoderInv_notifyListener;
    try assumption;
    unfold decoderInv in *; simpl in *; assumption.
Qed.

Lemma dispatchQueued_inv n s s' :
  dispatchQueued n s = Ok s' -> decoderInv s -> decoderInv s'.
Proof.
  unfold dispatchQueued. intros Hf Hi.
  repeat (break_match; try discriminate); inv_ok; [|exact Hi].
  eapply onMessageReceived_inv; [exact Hf|exact Hi].
Qed.


(** Where a NULL decoder can be dereferenced. *)

Lemma flushDecoder_NullDecoder audio needShutdown s :
  flushDecoder audio needShutdown s = Abort NullDecoder ->
  decoderOf audio s = None.
Proof.
  unfold flushDecoder, CHECK, decoderOf. intros Hf.
  destruct audio; simpl in *;
    repeat (break_match; try discriminate); reflexivity.
Qed.

Lemma finishFlushIfPossible_not_NullDecoder s :
  finishFlushIfPossible s <> Abort NullDecoder.
Proof.
  unfold finishFlushIfPossible, finishReset, CHECK.
  repeat (break_match; try discriminate).
Qed.

Lemma scanInstantiate_not_NullDecoder s :
  scanInstantiate s <> Abort NullDecoder.
Proof.
  unfold scanInstantiate, instantiateDecoder, bind. intros Hf.
  repeat (break_match; try discriminate; inv_ok).
Qed.

Lemma feedDecoderInputData_NullDecoder audio msg s :
  feedDecoderInputData audio msg s = Abort NullDecoder ->
  decoderOf audio s = None.
Proof.
  unfold feedDecoderInputData, bind. intros Hf.
  repeat (break_match; try discriminate; inv_ok).
  match goal with
  | Hfl : flushDecoder _ _ _ = Abort _ |- _ =>
      inv_ok; apply flushDecoder_NullDecoder in Hfl;
      destruct audio; exact Hfl
  end.
Qed.

Lemma onDecoderNotify_NullDecoder audio msg codecRequest s :
  decoderInv s ->
  onDecoderNotify audio msg codecRequest s = Abort NullDecoder ->
  exists cr,
    codecRequest = Some cr
    /\ cr_what cr = Some kWhatFillThisBuffer
    /\ decoderOf audio s = None.
Proof.
  intros [Ha Hv] Hf. unfold onDecoderNotify in Hf.
  destruct codecRequest as [cr|]; [|discriminate].
  destruct (cr_what cr) as [[]|] eqn:Ew; try discriminate.
  - exists cr. repeat split; trivial.
    unfold bind in Hf.
    destruct (feedDecoderInputData audio cr s) as [[err s1]|why] eqn:Efd.
    + repeat (break_match; try discriminate).
    + inv_ok. now apply feedDecoderInputData_NullDecoder in Efd.
  - unfold renderBuffer in Hf. repeat (break_match; try discriminate).
  - repeat (break_match; try discriminate).
  - exfalso. unfold CHECK in Hf.
    destruct audio; repeat (break_match; try discriminate);
      now apply finishFlushIfPossible_not_NullDecoder in Hf.
  - exfalso. unfold IsFlushingState, bind in Hf.
    destruct audio; simpl in *;
      repeat (break_match; try discriminate); inv_ok; simpl in *;
      try (now apply finishFlushIfPossible_not_NullDecoder in Hf);
      try (now apply Ha); try (now apply Hv).
  - unfold CHECK in Hf. repeat (break_match; try discriminate).
Qed.

Lemma onMessageReceived_NullDecoder m s :
  decoderInv s ->
  onMessageReceived m s = Abort NullDecoder ->
  exists cr,
    cr_what cr = Some kWhatFillThisBuffer
    /\ ((m = kWhatAudioNotify (Some cr) /\ mAudioDecoder s = None)
        \/ (m = kWhatVideoNotify (Some cr) /\ mVideoDecoder s = None)).
Proof.
  intros Hi Hf. destruct m; simpl in Hf;
    try (apply onDecoderNotify_NullDecoder in Hf; [|exact Hi];
         destruct Hf as (cr & -> & Hw & Hd); exists cr; split; [exact Hw|];
         simpl in Hd; auto);
    exfalso; unfold finishReset, scanFeed, CHECK, bind in Hf;
    repeat (break_match; try discriminate); inv_ok;
    try (now eapply scanInstantiate_not_NullDecoder; eauto);
    repeat match goal with
      | Hfl : flushDecoder _ _ _ = Abort NullDecoder |- _ =>
          apply flushDecoder_NullDecoder in Hfl; simpl in Hfl
      end;
    try match goal with
      | Hn : negb (isNull ?d) = true, Hd : ?d = None |- _ =>
          rewrite Hd in Hn; discriminate Hn
      end.
Qed.

Lemma step_NullDecoder e s :
  decoderInv s ->
  step e s = Abort NullDecoder ->
  exists m, eventMsg e s = Some m /\ orphanFill m s = true.
Proof.
  intros Hi Hf. destruct e as [m|n]; simpl in *.
  - exists m. split; [reflexivity|].
    destruct (onMessageReceived_NullDecoder m s Hi Hf)
      as (cr & Hw & [[-> Hd] | [-> Hd]]); simpl; now rewrite Hw, Hd.
  - unfold dispatchQueued in Hf.
    destruct (nth_error (queue s) n) as [[m d]|]; [|discriminate].
    exists m. split; [reflexivity|].
    apply onMessageReceived_NullDecoder in Hf; [|exact Hi].
    destruct Hf as (cr & Hw & [[-> Hd] | [-> Hd]]); simpl in *;
      now rewrite Hw, Hd.
Qed.

Lemma steps_no_NullDecoder es : forall s,
  decoderInv s -> fillsFromDecoders es s -> steps es s <> Abort NullDecoder.
Proof.
  induction es as [|e es IH]; simpl; intros s Hi Hfills; [discriminate|].
  destruct Hfills as [Hfill Hrest].
  unfold bind. destruct (step e s) as [s1|why] eqn:Es.
  - apply IH; [|now apply Hrest].
    destruct e; simpl in Es;
      [eapply onMessageReceived_inv | eapply dispatchQueued_inv]; eassumption.
  - intros Hab. inv_ok.
    destruct (step_NullDecoder e s Hi Es) as (m & Hm & Ho).
    rewrite (Hfill m Hm) in Ho. discriminate.
Qed.

(* ------------------------------------------------------------------ *)
(** ** Counting the PLAYBACK_COMPLETE events *)

Lemma flushDecoder_completes audio needShutdown s s' :
  flushDecoder audio needShutdown s = Ok s' -> completes s' = completes s.
Proof.
  unfold flushDecoder, CHECK. intros Hf.
  repeat (break_match; try discriminate; inv_ok); pc_simpl.
Qed.

Lemma finishReset_completes s s' :
  finishReset s = Ok s' -> completes s' = completes s.
Proof.
  unfold finishReset, CHECK. intros Hf.
  repeat (break_match; try discriminate; inv_ok).
  rewrite notifyListener_completes. pc_simpl.
Qed.

Lemma finishFlushIfPossible_completes s s' :
  finishFlushIfPossible s = Ok s' -> completes s' = completes s.
Proof.
  unfold finishFlushIfPossible, postScanSources. intros Hf.
  repeat (break_match; try discriminate; inv_ok);
    try (apply finishReset_completes in Hf; rewrite Hf); pc_simpl.
Qed.

Lemma instantiateDecoder_completes audio s st s' :
  instantiateDecoder audio s = Ok (st, s') -> completes s' = completes s.
Proof.
  unfold instantiateDecoder. intros Hf.
  repeat (break_match; try discriminate; inv_ok); pc_simpl.
Qed.

Lemma scanInstantiate_completes s s' :
  scanInstantiate s = Ok s' -> completes s' = completes s.
Proof.
  unfold scanInstantiate, bind. intros Hf.
  repeat (break_match; try discriminate; inv_ok);
    repeat match goal with
      | Hd : instantiateDecoder _ _ = Ok ?p |- _ =>
          is_var p; destruct p; simpl in *
      | Hd : instantiateDecoder _ _ = Ok (_, _) |- _ =>
          apply instantiateDecoder_completes in Hd; simpl in Hd
      end; congruence.
Qed.

Lemma feedDecoderInputData_completes audio msg s st s' :
  feedDecoderInputData audio msg s = Ok (st, s') -> completes s' = completes s.
Proof.
  unfold feedDecoderInputData, bind. intros Hf.
  repeat (break_match; try discriminate; inv_ok);
    try match goal with
      | Hfl : flushDecoder _ _ _ = Ok _ |- _ =>
          apply flushDecoder_completes in Hfl
      end; pc_simpl.
Qed.

Lemma onDecoderNotify_completes audio msg cr s s' :
  onDecoderNotify audio msg cr s = Ok s' -> completes s' = completes s.
Proof.
  unfold onDecoderNotify, bind, CHECK, renderBuffer. intros Hf.
  repeat (break_match; try discriminate; inv_ok);
    try match goal with
      | Hfd : feedDecoderInputData _ _ _ = Ok _ |- _ =>
          apply feedDecoderInputData_completes in Hfd
      end;
    try (apply finishFlushIfPossible_completes in Hf); pc_simpl.
Qed.

Lemma onMessageReceived_completes m s s' :
  onMessageReceived m s = Ok s' ->
  (completes s <= completes s'
   <= completes s + if sendsPlaybackComplete m then 1 else 0)%nat.
Proof.
  destruct m; simpl;
    unfold finishReset, scanFeed, postScanSources, CHECK, bind; intros Hf;
    try (apply onDecoderNotify_completes in Hf; lia);
    repeat (break_match; try discriminate; inv_ok); inv_ok;
    repeat match goal with
      | Hfl : flushDecoder _ _ _ = Ok _ |- _ =>
          apply flushDecoder_completes in Hfl
      | Hsc : scanInstantiate _ = Ok _ |- _ =>
          apply scanInstantiate_completes in Hsc
      end;
    rewrite ?notifyListener_completes;
    repeat break_match; pc_simpl.
Qed.

(* ------------------------------------------------------------------ *)
(** ** What a scan leaves alone *)

Lemma instantiateDecoder_frame audio s st s' :
  instantiateDecoder audio s = Ok (st, s') ->
  queue s' = queue s /\ mScanSourcesPending s' = mScanSourcesPending s
  /\ mListener s' = mListener s.
Proof.
  unfold instantiateDecoder. intros Hf.
  repeat (break_match; try discriminate; inv_ok); inv_ok; simpl; auto.
Qed.

Lemma scanInstantiate_frame s s' :
  scanInstantiate s = Ok s' ->
  queue s' = queue s /\ mScanSourcesPending s' = false
  /\ mListener s' = mListener s.
Proof.
  unfold scanInstantiate, bind. intros Hf.
  repeat (break_match; try discriminate; inv_ok); inv_ok;
    repeat match goal with
      | Hd : instantiateDecoder _ _ = Ok ?p |- _ =>
          is_var p; destruct p; simpl in *
      | Hd : instantiateDecoder _ _ = Ok (_, _) |- _ =>
          apply instantiateDecoder_frame in Hd; simpl in Hd;
          destruct Hd as (? & ? & ?)
      end; repeat split; congruence.
Qed.

End Properties.

(* ------------------------------------------------------------------ *)
(** ** Feeding a decoder during a flush *)

(** C1, as amended: for a track whose FlushStatus is FLUSHING_DECODER or
    FLUSHING_DECODER_SHUTDOWN (the two states [IsFlushingState] accepts),
    [feedDecoderInputData] with a request that carries a reply returns OK
    and does nothing but post the reply with the error INFO_DISCONTINUITY:
    the world, hence the source, is untouched, nothing is dequeued and no
    access unit is delivered. *)
Theorem feedDecoderInputData_flushing_replies_discontinuity
    {W : Type} `{World W} :
  forall (audio : bool) (msg : CodecRequest) (reply : Reply) (s : State W),
    cr_reply msg = Some reply ->
    flushingOf audio s = FLUSHING_DECODER
    \/ flushingOf audio s = FLUSHING_DECODER_SHUTDOWN ->
    feedDecoderInputData audio msg s
      = Ok (OK, call (Reply_post reply (ReplyErr INFO_DISCONTINUITY)) s)
    /\ world (call (Reply_post reply (ReplyErr INFO_DISCONTINUITY)) s) = world s
    /\ trace (call (Reply_post reply (ReplyErr INFO_DISCONTINUITY)) s)
       = trace s ++ [Reply_post reply (ReplyErr INFO_DISCONTINUITY)].
Proof.
  intros audio msg reply s Hreply Hfl.
  split; [|split; reflexivity].
  unfold feedDecoderInputData. rewrite Hreply.
  destruct audio; simpl in Hfl |- *; destruct Hfl as [-> | ->]; reflexivity.
Qed.

(** The video track of [avVideoFlushing] is in FLUSHING_DECODER: its
    decoder's request is answered with the discontinuity. *)
Lemma feedDecoderInputData_flushing_witness :
  feedDecoderInputData false (fillReq 7%nat) avVideoFlushing
  = Ok (OK, call (Reply_post 7%nat (ReplyErr INFO_DISCONTINUITY)) avVideoFlushing).
Proof.
  refine (proj1 (feedDecoderInputData_flushing_replies_discontinuity
                   false (fillReq 7%nat) 7%nat avVideoFlushing _ _)).
  - reflexivity.
  - left. vm_compute. reflexivity.
Defined.

(** C1 as stated fails: while the video track flushes, the audio track of
    [avVideoFlushing] is in AWAITING_DISCONTINUITY, which is not NONE, and
    its decoder's request dequeues an access unit from the source and is
    answered with that buffer. *)
Lemma feedDecoderInputData_awaiting_delivers_buffer :
  steps (setup ++ [Queued 0%nat; External (kWhatVideoNotify (Some (fillReq 3%nat)))])
        (player avWorld) = Ok avVideoFlushing
  /\ flushingOf true avVideoFlushing = AWAITING_DISCONTINUITY
  /\ flushingOf true avVideoFlushing <> NONE
  /\ exists s',
       feedDecoderInputData true (fillReq 7%nat) avVideoFlushing = Ok (OK, s')
       /\ trace s'
          = trace avVideoFlushing
            ++ [Source_dequeueAccessUnit true;
                Reply_post 7%nat (ReplyBuffer (Some (mkABuffer 9 None)))]
       /\ auAudio (world avVideoFlushing) = [(OK, Some (mkABuffer 9 None))]
       /\ auAudio (world s') = [].
Proof.
  vm_compute. split; [reflexivity|]. split; [reflexivity|].
  split; [discriminate|].
  eexists. split; [reflexivity|]. repeat split.
Qed.

(* ------------------------------------------------------------------ *)
(** ** The scan generation *)

(** C2: every call of [flushDecoder] that returns has incremented
    [mScanSourcesGeneration] (an [int32_t] increment: plus one below
    INT32_MAX), so that the new generation differs from the old one and a
    scan message carrying the old one is dropped; and a kWhatScanSources
    message whose generation differs from [mScanSourcesGeneration] leaves
    the whole state as it is: no member changes, no call is made, nothing
    is posted. *)
Theorem flushDecoder_bumps_generation_stale_scan_dropped
    {W : Type} `{World W} :
  (forall (audio needShutdown : bool) (s s' : State W),
      flushDecoder audio needShutdown s = Ok s' ->
      mScanSourcesGeneration s' = int32_incr (mScanSourcesGeneration s)
      /\ mScanSourcesGeneration s' <> mScanSourcesGeneration s
      /\ (INT32_MIN <= mScanSourcesGeneration s < INT32_MAX ->
          mScanSourcesGeneration s' = mScanSourcesGeneration s + 1)
      /\ onMessageReceived (kWhatScanSources (Some (mScanSourcesGeneration s))) s'
         = Ok s')
  /\ (forall (generation : Z) (s : State W),
         generation <> mScanSourcesGeneration s ->
         onMessageReceived (kWhatScanSources (Some generation)) s = Ok s).
Proof.
  split; [|exact stale_scan_dropped].
  intros audio needShutdown s s' Hf.
  pose proof (flushDecoder_generation _ _ _ _ Hf) as Hg.
  pose proof (int32_incr_neq (mScanSourcesGeneration s)) as Hne.
  repeat split.
  - exact Hg.
  - congruence.
  - intros Hr. rewrite Hg. now apply int32_incr_in_range.
  - apply stale_scan_dropped. congruence.
Qed.

(** The flush of the video track of [avPlaying] moves the generation from
    0 to 1, and the scan of generation 0 is dropped afterwards. *)
Lemma stale_scan_dropped_witness :
  flushDecoder false false avPlaying
  = Ok (stateOr avPlaying (flushDecoder false false avPlaying))
  /\ mScanSourcesGeneration (stateOr avPlaying (flushDecoder false false avPlaying)) = 1
  /\ onMessageReceived (kWhatScanSources (Some 0))
       (stateOr avPlaying (flushDecoder false false avPlaying))
     = Ok (stateOr avPlaying (flushDecoder false false avPlaying))
  /\ onMessageReceived (kWhatScanSources (Some 5)) avPlaying = Ok avPlaying.
Proof.
  assert (Hflush : flushDecoder false false avPlaying
                   = Ok (stateOr avPlaying (flushDecoder false false avPlaying)))
    by (vm_compute; reflexivity).
  split; [exact Hflush|].
  destruct (proj1 flushDecoder_bumps_generation_stale_scan_dropped
              false false avPlaying _ Hflush) as (_ & _ & Hincr & Hdrop).
  split; [|split].
  - rewrite Hincr; [vm_compute; reflexivity|].
    vm_compute. split; [discriminate | reflexivity].
  - exact Hdrop.
  - apply (proj2 flushDecoder_bumps_generation_stale_scan_dropped).
    vm_compute. discriminate.
Defined.

(* ------------------------------------------------------------------ *)
(** ** A postponed reset waits for the end of the flush *)

Lemma skipn_length_app {A : Type} (a l : list A) : skipn (length a) (a ++ l) = l.
Proof. induction a as [|x a IH]; simpl; auto. Qed.

Lemma firstn_length_app {A : Type} (a l : list A) : firstn (length a) (a ++ l) = a.
Proof. induction a as [|x a IH]; simpl; [reflexivity | now rewrite IH]. Qed.

Lemma nth_error_length_app {A : Type} (a : list A) (x : A) :
  nth_error (a ++ [x]) (length a) = Some x.
Proof. induction a as [|y a IH]; simpl; auto. Qed.

Lemma skipn_S_length_app {A : Type} (a : list A) (x : A) :
  skipn (S (length a)) (a ++ [x]) = [].
Proof. induction a as [|y a IH]; simpl; auto. Qed.

Section Postponed.

Context {W : Type} `{World W}.

Implicit Types s : State W.

Lemma waits_same_queue s s' :
  resetWaits s' -> queue s' = queue s -> waitsOrReposted s s'.
Proof.
  intros Hw Hq. left. split; [exact Hw|].
  exists []. rewrite app_nil_r. auto.
Qed.

Lemma waits_posted s s' m d :
  resetWaits s' -> queue s' = queue s ++ [(m, d)] -> isReset (m, d) = false ->
  waitsOrReposted s s'.
Proof.
  intros Hw Hq Hm. left. split; [exact Hw|].
  exists [(m, d)]. split; [exact Hq|].
  unfold postedResets. simpl. now rewrite Hm.
Qed.

Lemma flushDecoder_waits audio needShutdown s s' :
  flushDecoder audio needShutdown s = Ok s' ->
  resetWaits s -> resetWaits s' /\ queue s' = queue s.
Proof.
  unfold flushDecoder, CHECK, resetWaits, flushUnderWay.
  intros Hf (Hn & Hp & Hr).
  destruct audio, needShutdown; crush; simpl;
    repeat split; auto; (left; discriminate) || (right; discriminate).
Qed.

Lemma finishFlushIfPossible_waits s s' :
  finishFlushIfPossible s = Ok s' ->
  resetWaits s ->
  (resetWaits s' /\ queue s' = queue s) \/ resetReposted (queue s) s'.
Proof.
  destruct s as [l so su si vd ad r ae ve pe g fa fv rip rp w t q].
  unfold resetWaits, resetReposted, flushUnderWay, finishFlushIfPossible.
  cbn [mFlushingAudio mFlushingVideo mResetPostponed mResetInProgress mRenderer
       queue].
  intros Hf (Hn & -> & ->). revert Hf.
  destruct fa, fv; simpl;
    try (intros Hf; inv_ok; left; simpl; repeat split; auto; fail);
    destruct r; simpl; try discriminate;
    destruct ad, vd; simpl; intros Hf; inv_ok; right; simpl;
    repeat split; reflexivity.
Qed.

Lemma instantiateDecoder_waits audio s st s' :
  instantiateDecoder audio s = Ok (st, s') ->
  mFlushingAudio s' = mFlushingAudio s /\ mFlushingVideo s' = mFlushingVideo s
  /\ mResetPostponed s' = mResetPostponed s
  /\ mResetInProgress s' = mResetInProgress s.
Proof.
  unfold instantiateDecoder. intros Hf. crush; simpl; auto.
Qed.

Lemma scanInstantiate_waits s s' :
  scanInstantiate s = Ok s' ->
  resetWaits s -> resetWaits s' /\ queue s' = queue s.
Proof.
  unfold scanInstantiate, bind, resetWaits, flushUnderWay.
  intros Hf (Hn & Hp & Hr).
  destruct (instantiateDecoder false (set_mScanSourcesPending false s))
    as [[st1 s1]|] eqn:E1; [|discriminate].
  simpl in Hf.
  destruct (instantiateDecoder_waits _ _ _ _ E1) as (Ha1 & Hv1 & Hp1 & Hr1).
  destruct (instantiateDecoder_frame _ _ _ _ E1) as (Hq1 & _).
  simpl in Ha1, Hv1, Hp1, Hr1, Hq1.
  destruct (negb (isNull (mAudioSink s1))).
  - destruct (instantiateDecoder true s1) as [[st2 s2]|] eqn:E2; [|discriminate].
    simpl in Hf. inv_ok.
    destruct (instantiateDecoder_waits _ _ _ _ E2) as (Ha2 & Hv2 & Hp2 & Hr2).
    destruct (instantiateDecoder_frame _ _ _ _ E2) as (Hq2 & _).
    rewrite Ha2, Hv2, Hp2, Hr2, Hq2, Ha1, Hv1, Hp1, Hr1, Hq1. auto.
  - inv_ok. rewrite Ha1, Hv1, Hp1, Hr1, Hq1. auto.
Qed.

Lemma resetWaits_notifyListener m e1 e2 s :
  resetWaits s ->
  resetWaits (notifyListener m e1 e2 s)
  /\ queue (notifyListener m e1 e2 s) = queue s.
Proof.
  unfold notifyListener. intros Hw.
  destruct (mListener s); [destruct (listener_promote _ _)|]; auto.
Qed.

Lemma feedDecoderInputData_waits audio msg s st s' :
  feedDecoderInputData audio msg s = Ok (st, s') ->
  resetWaits s -> resetWaits s' /\ queue s' = queue s.
Proof.
  unfold feedDecoderInputData, bind. intros Hf Hw.
  crush; simpl; auto;
    match goal with
    | Hfl : flushDecoder _ _ _ = Ok _ |- _ =>
        apply flushDecoder_waits in Hfl; [exact Hfl | exact Hw]
    end.
Qed.

Lemma onDecoderNotify_waits audio msg cr s s' :
  isReset (msg, 0) = false ->
  onDecoderNotify audio msg cr s = Ok s' ->
  resetWaits s -> waitsOrReposted s s'.
Proof.
  unfold onDecoderNotify, bind, CHECK, renderBuffer. intros Hm Hf Hw.
  repeat (break_match; try discriminate; inv_ok); inv_ok;
    try match goal with
      | Hfd : feedDecoderInputData _ _ _ = Ok _ |- _ =>
          apply feedDecoderInputData_waits in Hfd; [|exact Hw];
          destruct Hfd as [Hw1 Hq1];
          first [ apply (waits_posted _ _ msg 0);
                  [exact Hw1 | simpl; now rewrite Hq1 | exact Hm]
                | apply waits_same_queue; [exact Hw1 | simpl; exact Hq1] ]
      end;
    try (apply waits_same_queue; [exact Hw | reflexivity]);
    apply finishFlushIfPossible_waits in Hf;
    try (destruct Hf as [[Hw1 Hq1] | Hre];
         [apply waits_same_queue; [exact Hw1 | exact Hq1] | right; exact Hre]);
    destruct Hw as (Hn & Hp & Hr);
    unfold resetWaits, flushUnderWay; simpl; repeat split; auto;
    (left; discriminate) || (right; discriminate).
Qed.

Lemma onMessageReceived_waits m s s' :
  onMessageReceived m s = Ok s' ->
  resetWaits s -> waitsOrReposted s s'.
Proof.
  destruct m; simpl onMessageReceived.
  10: { intros Hf Hw. pose proof Hw as (Hn & Hp & Hr). revert Hf.
        destruct (mFlushingAudio s) eqn:Ea, (mFlushingVideo s) eqn:Ev; simpl;
          try (destruct Hn; congruence);
          intros Hf; inv_ok; apply waits_same_queue; try reflexivity;
          (split; [exact Hn | split; [reflexivity | exact Hr]]). }
  6, 7: apply onDecoderNotify_waits; reflexivity.
  all: unfold scanFeed, postScanSources, CHECK, bind; intros Hf Hw;
    repeat (break_match; try discriminate; inv_ok); inv_ok;
    try match goal with
      | Hsc : scanInstantiate _ = Ok _ |- _ =>
          apply scanInstantiate_waits in Hsc; [|exact Hw];
          destruct Hsc as [Hw1 Hq1]
      end;
    try (apply waits_same_queue; [exact Hw | reflexivity]);
    try match goal with
      | |- waitsOrReposted _ (notifyListener ?m ?a ?b ?x) =>
          assert (Hwx : resetWaits x) by first [exact Hw1 | exact Hw];
          destruct (resetWaits_notifyListener m a b x Hwx) as [Hw2 Hq2];
          apply waits_same_queue;
          [exact Hw2 | rewrite Hq2; simpl; first [exact Hq1 | reflexivity]]
      end;
    try (apply waits_same_queue; [exact Hw1 | simpl; exact Hq1]);
    try (eapply waits_posted; [ | simpl; rewrite ?Hq1; reflexivity | reflexivity];
         first [exact Hw1 | exact Hw]).
Qed.

Lemma resetWaits_taken e s : resetWaits s -> resetWaits (taken e s).
Proof.
  intros Hw. destruct e as [m|n]; simpl; [exact Hw|].
  destruct (nth_error (queue s) n); exact Hw.
Qed.

Lemma step_taken e s s' :
  step e s = Ok s' ->
  s' = taken e s
  \/ exists m, eventMsg e s = Some m /\ onMessageReceived m (taken e s) = Ok s'.
Proof.
  destruct e as [m|n]; simpl.
  - intros Hf. right. eauto.
  - unfold dispatchQueued.
    destruct (nth_error (queue s) n) as [[m d]|]; simpl; intros Hf.
    + right. eauto.
    + left. now inv_ok.
Qed.

Lemma step_waits e s s' :
  step e s = Ok s' ->
  resetWaits s ->
  (resetWaits s' /\ postedResets (postedBy e s s') = 0%nat)
  \/ resetReposted (queue (taken e s)) s'.
Proof.
  intros Hf Hw. unfold postedBy.
  destruct (step_taken _ _ _ Hf) as [-> | (m & _ & Hm)].
  - left. split; [now apply resetWaits_taken|].
    rewrite <- (app_nil_r (queue (taken e s))) at 2.
    now rewrite skipn_length_app.
  - destruct (onMessageReceived_waits _ _ _ Hm (resetWaits_taken e s Hw))
      as [(Hw1 & l & Hq & Hl) | Hre].
    + left. split; [exact Hw1|]. rewrite Hq, skipn_length_app. exact Hl.
    + right. exact Hre.
Qed.

Lemma steps_waits es : forall s s',
  steps es s = Ok s' ->
  resetWaits s ->
  (resetWaits s' /\ resetPosts es s = 0%nat)
  \/ exists es1 e es2 s1 s2,
       es = es1 ++ e :: es2
       /\ steps es1 s = Ok s1
       /\ resetWaits s1
       /\ resetPosts es1 s = 0%nat
       /\ step e s1 = Ok s2
       /\ resetReposted (queue (taken e s1)) s2.
Proof.
  induction es as [|e es IH]; intros s s' Hf Hw.
  - left. simpl in Hf. inv_ok. auto.
  - cbn [steps] in Hf. unfold bind in Hf.
    destruct (step e s) as [s1|] eqn:Es; [|discriminate].
    destruct (step_waits _ _ _ Es Hw) as [[Hw1 Hp1] | Hre].
    + destruct (IH s1 s' Hf Hw1)
        as [[Hw' Hp'] | (es1 & e' & es2 & t1 & t2 & -> & Hs1 & Hwt & Hpt & Hst & Hre)].
      * left. split; [exact Hw'|]. simpl resetPosts. rewrite Es, Hp1, Hp'. reflexivity.
      * right. exists (e :: es1), e', es2, t1, t2.
        split; [reflexivity|].
        split; [cbn [steps]; unfold bind; rewrite Es; exact Hs1|].
        split; [exact Hwt|].
        split; [simpl resetPosts; rewrite Es, Hp1, Hpt; reflexivity|].
        split; [exact Hst | exact Hre].
    + right. exists [], e, es, s, s1.
      split; [reflexivity|]. split; [reflexivity|]. split; [exact Hw|].
      split; [reflexivity|]. split; [exact Es | exact Hre].
Qed.

Lemma reposted_reset_executes q s :
  resetReposted q s ->
  step (Queued (length q)) s = onMessageReceived kWhatReset (set_queue q s)
  /\ forall s', onMessageReceived kWhatReset (set_queue q s) = Ok s' ->
       mResetPostponed s' = false
       /\ ((mSource s' = None /\ mRenderer s' = None
            /\ mAudioDecoder s' = None /\ mVideoDecoder s' = None
            /\ mResetInProgress s' = false)
           \/ (mResetInProgress s' = true /\ flushUnderWay s')).
Proof.
  intros (Ha & Hv & Hp & Hr & Hq). split.
  - simpl. unfold dispatchQueued.
    rewrite Hq, nth_error_length_app, firstn_length_app, skipn_S_length_app,
      app_nil_r.
    reflexivity.
  - clear Hq. intros s'.
    destruct s as [l so su si vd ad r ae ve pe g fa fv rip rp w t q0].
    cbn [mFlushingAudio mFlushingVideo mResetPostponed mResetInProgress]
      in Ha, Hv, Hp, Hr.
    subst fa fv rp rip.
    destruct ad, vd, r;
      (destruct l as [l|]; [destruct (listener_promote l w) eqn:Ep|]);
      cbv -[int32_incr app listener_promote]; rewrite ?Ep;
      intros Hf; try discriminate; inv_ok;
      (split; [reflexivity|]);
      first [ left; repeat split; reflexivity
            | right; split; [reflexivity|]; left; intro; discriminate
            | right; split; [reflexivity|]; right; intro; discriminate ].
Qed.

End Postponed.

(* ------------------------------------------------------------------ *)
(** ** Reset during a flush *)

(** C3, as amended: a kWhatReset processed while [mFlushingAudio] or
    [mFlushingVideo] is not NONE only sets [mResetPostponed].  When
    [finishFlushIfPossible] runs with both tracks quiescent, with
    [mResetPostponed] set and [mResetInProgress] clear, it posts exactly
    one new kWhatReset, clears [mResetPostponed] and leaves both tracks
    in NONE.  And over runs: after a reset delivered during a flush with
    [mResetInProgress] clear, whatever the events that follow, as long
    as a track is not idle the flag stays set and no kWhatReset is
    posted; the first step after which both tracks are idle posts exactly
    one kWhatReset, behind what the queue held, and clears the flag; and
    that message, dispatched in the state this step leaves, runs the
    reset handler, which does not postpone again: it finishes the reset
    or starts the flushes of the reset. *)
Theorem reset_during_flush_postponed_then_posted {W : Type} `{World W} :
  (forall s : State W,
      mFlushingAudio s <> NONE \/ mFlushingVideo s <> NONE ->
      onMessageReceived kWhatReset s = Ok (set_mResetPostponed true s))
  /\ (forall s : State W,
         quiescent (mFlushingAudio s) = true ->
         quiescent (mFlushingVideo s) = true ->
         mRenderer s <> None ->
         mResetInProgress s = false ->
         mResetPostponed s = true ->
         exists s',
           finishFlushIfPossible s = Ok s'
           /\ queue s' = queue s ++ [(kWhatReset, 0)]
           /\ postedResets (queue s') = S (postedResets (queue s))
           /\ mResetPostponed s' = false
           /\ mFlushingAudio s' = NONE
           /\ mFlushingVideo s' = NONE)
  /\ (forall (s0 : State W) (es : list Event) (s' : State W),
         mFlushingAudio s0 <> NONE \/ mFlushingVideo s0 <> NONE ->
         mResetInProgress s0 = false ->
         steps (External kWhatReset :: es) s0 = Ok s' ->
         (resetWaits s' /\ resetPosts es (set_mResetPostponed true s0) = 0%nat)
         \/ exists es1 e es2 s1 s2,
              es = es1 ++ e :: es2
              /\ steps es1 (set_mResetPostponed true s0) = Ok s1
              /\ resetWaits s1
              /\ resetPosts es1 (set_mResetPostponed true s0) = 0%nat
              /\ step e s1 = Ok s2
              /\ resetReposted (queue (taken e s1)) s2
              /\ postedResets (postedBy e s1 s2) = 1%nat
              /\ step (Queued (length (queue (taken e s1)))) s2
                 = onMessageReceived kWhatReset
                     (set_queue (queue (taken e s1)) s2)
              /\ forall s3,
                   step (Queued (length (queue (taken e s1)))) s2 = Ok s3 ->
                   mResetPostponed s3 = false
                   /\ ((mSource s3 = None /\ mRenderer s3 = None
                        /\ mAudioDecoder s3 = None /\ mVideoDecoder s3 = None
                        /\ mResetInProgress s3 = false)
                       \/ (mResetInProgress s3 = true /\ flushUnderWay s3))).
Proof.
  assert (Hpost : forall s : State W,
             mFlushingAudio s <> NONE \/ mFlushingVideo s <> NONE ->
             onMessageReceived kWhatReset s = Ok (set_mResetPostponed true s)).
  { intros s Hfl. simpl.
    destruct (mFlushingAudio s), (mFlushingVideo s); simpl; try reflexivity.
    destruct Hfl; congruence. }
  split; [exact Hpost|]. split.
  - intros s Ha Hv Hr Hip Hpp.
    pose proof (finishFlushIfPossible_quiescent s) as Hcase.
    rewrite Ha, Hv in Hcase. specialize (Hcase eq_refl Hr).
    rewrite Hip, Hpp in Hcase.
    eexists. split; [exact Hcase|].
    simpl. unfold postedResets. rewrite filter_app, length_app. simpl.
    repeat split; try reflexivity. lia.
  - intros s0 es s' Hfl Hip Hsteps.
    cbn [steps step] in Hsteps. rewrite (Hpost s0 Hfl) in Hsteps.
    unfold bind in Hsteps.
    assert (Hw : resetWaits (set_mResetPostponed true s0)).
    { split; [exact Hfl|]. split; [reflexivity | exact Hip]. }
    destruct (steps_waits es _ _ Hsteps Hw)
      as [Hleft | (es1 & e & es2 & s1 & s2 & He & Hs1 & Hw1 & Hp1 & Hst & Hre)].
    + left. exact Hleft.
    + right. exists es1, e, es2, s1, s2.
      destruct (reposted_reset_executes _ _ Hre) as [Hdisp Hexec].
      split; [exact He|]. split; [exact Hs1|]. split; [exact Hw1|].
      split; [exact Hp1|]. split; [exact Hst|]. split; [exact Hre|].
      split.
      { unfold postedBy. destruct Hre as (_ & _ & _ & _ & ->).
        rewrite skipn_length_app. reflexivity. }
      split; [exact Hdisp|].
      intros s3 Hs3. rewrite Hdisp in Hs3. exact (Hexec s3 Hs3).
Qed.

(** A reset that arrives while the audio track of [audioFlushing] is in
    FLUSHING_DECODER is postponed; when the decoder acknowledges the
    flush, one kWhatReset is posted; the run goes on with the dispatch of
    that message and ends in [resetExecuted]. *)
Lemma reset_postponed_witness :
  onMessageReceived kWhatReset (audioFlushing (DISCONTINUITY_OTHER 1))
  = Ok (set_mResetPostponed true (audioFlushing (DISCONTINUITY_OTHER 1)))
  /\ (exists s',
        finishFlushIfPossible resetWhileFlushingAcked = Ok s'
        /\ queue s' = queue resetWhileFlushingAcked ++ [(kWhatReset, 0)]
        /\ postedResets (queue s') = S (postedResets (queue resetWhileFlushingAcked))
        /\ mResetPostponed s' = false
        /\ mFlushingAudio s' = NONE
        /\ mFlushingVideo s' = NONE)
  /\ ((resetWaits resetExecuted
       /\ resetPosts [flushAck; Queued 1%nat]
            (set_mResetPostponed true (audioFlushing (DISCONTINUITY_OTHER 1)))
          = 0%nat)
      \/ exists es1 e es2 s1 s2,
           [flushAck; Queued 1%nat] = es1 ++ e :: es2
           /\ steps es1 (set_mResetPostponed true
                           (audioFlushing (DISCONTINUITY_OTHER 1))) = Ok s1
           /\ resetWaits s1
           /\ resetPosts es1 (set_mResetPostponed true
                                (audioFlushing (DISCONTINUITY_OTHER 1))) = 0%nat
           /\ step e s1 = Ok s2
           /\ resetReposted (queue (taken e s1)) s2
           /\ postedResets (postedBy e s1 s2) = 1%nat
           /\ step (Queued (length (queue (taken e s1)))) s2
              = onMessageReceived kWhatReset
                  (set_queue (queue (taken e s1)) s2)
           /\ forall s3,
                step (Queued (length (queue (taken e s1)))) s2 = Ok s3 ->
                mResetPostponed s3 = false
                /\ ((mSource s3 = None /\ mRenderer s3 = None
                     /\ mAudioDecoder s3 = None /\ mVideoDecoder s3 = None
                     /\ mResetInProgress s3 = false)
                    \/ (mResetInProgress s3 = true /\ flushUnderWay s3))).
Proof.
  assert (Hfl : mFlushingAudio (audioFlushing (DISCONTINUITY_OTHER 1)) <> NONE
                \/ mFlushingVideo (audioFlushing (DISCONTINUITY_OTHER 1)) <> NONE)
    by (left; vm_compute; discriminate).
  assert (Hip : mResetInProgress (audioFlushing (DISCONTINUITY_OTHER 1)) = false)
    by (vm_compute; reflexivity).
  assert (Hsteps : steps (External kWhatReset :: [flushAck; Queued 1%nat])
                     (audioFlushing (DISCONTINUITY_OTHER 1))
                   = Ok resetExecuted)
    by (vm_compute; reflexivity).
  assert (Hqa : quiescent (mFlushingAudio resetWhileFlushingAcked) = true)
    by (vm_compute; reflexivity).
  assert (Hqv : quiescent (mFlushingVideo resetWhileFlushingAcked) = true)
    by (vm_compute; reflexivity).
  assert (Hr : mRenderer resetWhileFlushingAcked <> None)
    by (vm_compute; discriminate).
  assert (Hip' : mResetInProgress resetWhileFlushingAcked = false)
    by (vm_compute; reflexivity).
  assert (Hpp : mResetPostponed resetWhileFlushingAcked = true)
    by (vm_compute; reflexivity).
  split; [|split].
  - exact (proj1 reset_during_flush_postponed_then_posted _ Hfl).
  - exact (proj1 (proj2 reset_during_flush_postponed_then_posted)
             resetWhileFlushingAcked Hqa Hqv Hr Hip' Hpp).
  - exact (proj2 (proj2 reset_during_flush_postponed_then_posted)
             _ _ _ Hfl Hip Hsteps).
Defined.

(** C3 as stated fails: the second reset of [resetTwice] is delivered
    while the flush started by the first reset is under way, and is
    postponed.  When that flush ends, [finishFlushIfPossible] runs with
    both tracks quiescent, finds [mResetInProgress] set and finishes the
    reset: no kWhatReset is posted, and [mResetPostponed] is still set. *)
Lemma reset_during_reset_flush_never_posted :
  mFlushingAudio resetOnce = FLUSHING_DECODER_SHUTDOWN
  /\ step (External kWhatReset) resetOnce = Ok resetTwice
  /\ resetTwice = set_mResetPostponed true resetOnce
  /\ quiescent (mFlushingAudio resetTwiceAcked) = true
  /\ quiescent (mFlushingVideo resetTwiceAcked) = true
  /\ finishFlushIfPossible resetTwiceAcked = Ok resetTwiceDone
  /\ steps shutdownEvents resetTwice = Ok resetTwiceDone
  /\ mFlushingAudio resetTwiceDone = NONE
  /\ mFlushingVideo resetTwiceDone = NONE
  /\ postedResets (queue resetTwiceDone) = postedResets (queue resetTwiceAcked)
  /\ postedResets (queue resetTwiceDone) = 0%nat
  /\ mResetPostponed resetTwiceDone = true.
Proof. vm_compute. repeat split; reflexivity. Qed.

(* ------------------------------------------------------------------ *)
(** ** The end of a flush *)

(** C5, as amended: [finishFlushIfPossible] changes nothing unless both
    tracks are in FLUSHED or SHUT_DOWN.  When both are (and the renderer
    exists), it signals the renderer's time discontinuity, resumes each
    decoder that is still there and whose track is not SHUT_DOWN, sets
    both tracks to NONE, and then does exactly one of, in this order of
    priority: [finishReset] with [mResetInProgress] cleared; posting a
    new kWhatReset with [mResetPostponed] cleared; calling
    [postScanSources] when a track was SHUT_DOWN; nothing.
    [postScanSources] posts a kWhatScanSources of the current generation
    and sets [mScanSourcesPending] when that flag was clear. *)
Theorem finishFlushIfPossible_cases {W : Type} `{World W} :
  forall s : State W,
    (quiescent (mFlushingAudio s) && quiescent (mFlushingVideo s) = false ->
     finishFlushIfPossible s = Ok s)
    /\ (quiescent (mFlushingAudio s) && quiescent (mFlushingVideo s) = true ->
        mRenderer s <> None ->
        finishFlushIfPossible s
        = if mResetInProgress s then
            finishReset (set_mResetInProgress false (flushCompleted s))
          else if mResetPostponed s then
            Ok (set_mResetPostponed false (post kWhatReset 0 (flushCompleted s)))
          else if FlushStatus_eqb (mFlushingAudio s) SHUT_DOWN
                  || FlushStatus_eqb (mFlushingVideo s) SHUT_DOWN then
            Ok (postScanSources (flushCompleted s))
          else Ok (flushCompleted s))
    /\ (mScanSourcesPending s = false ->
        postScanSources (flushCompleted s)
        = set_mScanSourcesPending true
            (post (kWhatScanSources (Some (mScanSourcesGeneration s))) 0
                  (flushCompleted s))).
Proof.
  intros s. split; [|split].
  - apply finishFlushIfPossible_not_quiescent.
  - apply finishFlushIfPossible_quiescent.
  - intros Hp. unfold postScanSources. simpl. rewrite Hp. reflexivity.
Qed.

(** The flush of [resetWhileFlushingAcked] is complete: the time
    discontinuity is signalled, the audio decoder resumed and the
    postponed reset posted.  In [avVideoFlushing] the audio track still
    awaits its discontinuity and nothing happens. *)
Lemma finishFlushIfPossible_cases_witness :
  finishFlushIfPossible avVideoFlushing = Ok avVideoFlushing
  /\ finishFlushIfPossible resetWhileFlushingAcked
     = Ok (set_mResetPostponed false
             (post kWhatReset 0 (flushCompleted resetWhileFlushingAcked)))
  /\ flushCompletionCalls resetWhileFlushingAcked
     = [Renderer_signalTimeDiscontinuity; Decoder_signalResume true].
Proof.
  split; [|split].
  - apply (proj1 (finishFlushIfPossible_cases avVideoFlushing)).
    vm_compute. reflexivity.
  - rewrite (proj1 (proj2 (finishFlushIfPossible_cases resetWhileFlushingAcked))).
    + vm_compute. reflexivity.
    + vm_compute. reflexivity.
    + vm_compute. discriminate.
  - vm_compute. reflexivity.
Defined.

(** C5 as stated fails: in [restartedAcked] the audio track is SHUT_DOWN,
    the video track FLUSHED and no reset is in progress or postponed, but
    a scan of the current generation is already posted and
    [mScanSourcesPending] is set, so that [postScanSources] returns at
    once: no kWhatScanSources is posted.  The same happens in
    [formatChangeAcked], where the flag is set and the queue is empty. *)
Lemma finishFlushIfPossible_scan_not_posted :
  (steps restartEvents (player dryWorld) = Ok restarted
   /\ mFlushingAudio restartedAcked = SHUT_DOWN
   /\ mFlushingVideo restartedAcked = FLUSHED
   /\ mResetInProgress restartedAcked = false
   /\ mResetPostponed restartedAcked = false
   /\ isNull (mRenderer restartedAcked) = false
   /\ mScanSourcesPending restartedAcked = true
   /\ mScanSourcesGeneration restartedAcked = 1
   /\ queue restartedAcked = [(kWhatScanSources (Some 1), 0)]
   /\ finishFlushIfPossible restartedAcked = Ok restartedDone
   /\ queue restartedDone = queue restartedAcked)
  /\ (mFlushingAudio formatChangeAcked = SHUT_DOWN
      /\ mFlushingVideo formatChangeAcked = FLUSHED
      /\ mResetInProgress formatChangeAcked = false
      /\ mResetPostponed formatChangeAcked = false
      /\ isNull (mRenderer formatChangeAcked) = false
      /\ mScanSourcesPending formatChangeAcked = true
      /\ finishFlushIfPossible formatChangeAcked = Ok formatChangeDone
      /\ queue formatChangeDone = queue formatChangeAcked
      /\ queue formatChangeDone = []).
Proof. vm_compute. repeat split; reflexivity. Qed.

(* ------------------------------------------------------------------ *)
(** ** The start of a flush *)

(** C6: [flushDecoder] aborts unless the track's status is NONE or
    AWAITING_DISCONTINUITY.  From one of these two, the call returns
    whenever the track's decoder and the renderer exist, and whenever it
    returns the track is in FLUSHING_DECODER_SHUTDOWN if [needShutdown]
    and in FLUSHING_DECODER otherwise, while a peer track that was in NONE
    is in AWAITING_DISCONTINUITY if it has a decoder and in FLUSHED if it
    has none (a peer in another state keeps it). *)
Theorem flushDecoder_transitions {W : Type} `{World W} :
  forall (audio needShutdown : bool) (s : State W),
    (flushingOf audio s <> NONE ->
     flushingOf audio s <> AWAITING_DISCONTINUITY ->
     exists why, flushDecoder audio needShutdown s = Abort why)
    /\ (flushingOf audio s = NONE \/ flushingOf audio s = AWAITING_DISCONTINUITY ->
        (decoderOf audio s <> None -> mRenderer s <> None ->
         exists s', flushDecoder audio needShutdown s = Ok s')
        /\ (forall s', flushDecoder audio needShutdown s = Ok s' ->
            flushingOf audio s'
              = (if needShutdown then FLUSHING_DECODER_SHUTDOWN else FLUSHING_DECODER)
            /\ flushingOf (negb audio) s'
               = match flushingOf (negb audio) s with
                 | NONE => if isNull (decoderOf (negb audio) s)
                           then FLUSHED else AWAITING_DISCONTINUITY
                 | st => st
                 end)).
Proof.
  intros audio needShutdown s.
  destruct s as [l so su si vd ad r ae ve pe g fa fv rip rp w t q].
  unfold flushDecoder, CHECK. split; [|intros Hprior; split].
  - intros Hn Ha.
    destruct audio; simpl in *; destruct ad, vd, r, fa, fv; simpl;
      try congruence; eauto.
  - intros Hd Hr.
    destruct audio; simpl in *; destruct ad, vd, r; try congruence;
      destruct fa, fv; simpl; eauto; destruct Hprior; discriminate.
  - intros s' Hf.
    destruct audio, needShutdown; simpl in *; destruct ad, vd, r;
      try discriminate; destruct fa, fv; simpl in *;
      inv_ok; simpl; auto; destruct Hprior; discriminate.
Qed.

(** In [avPlaying] both decoders exist: flushing the video track puts it
    in FLUSHING_DECODER and the audio track in AWAITING_DISCONTINUITY.
    In [audioPlaying] there is no video decoder: flushing the audio track
    for a shutdown puts the video track in FLUSHED.  A second flush of a
    flushing track aborts. *)
Lemma flushDecoder_transitions_witness :
  (flushingOf false (stateOr avPlaying (flushDecoder false false avPlaying))
   = FLUSHING_DECODER
   /\ flushingOf true (stateOr avPlaying (flushDecoder false false avPlaying))
      = AWAITING_DISCONTINUITY)
  /\ (flushingOf true resetOnce = FLUSHING_DECODER_SHUTDOWN
      /\ flushingOf false resetOnce = FLUSHED)
  /\ exists why, flushDecoder false true avVideoFlushing = Abort why.
Proof.
  assert (Hv : flushDecoder false false avPlaying
               = Ok (stateOr avPlaying (flushDecoder false false avPlaying)))
    by (vm_compute; reflexivity).
  assert (Ha : flushDecoder true true (audioPlaying DISCONTINUITY_FORMATCHANGE)
               = Ok (set_mResetInProgress false resetOnce))
    by (vm_compute; reflexivity).
  assert (Hnv : flushingOf false avPlaying = NONE)
    by (vm_compute; reflexivity).
  assert (Hna : flushingOf true (audioPlaying DISCONTINUITY_FORMATCHANGE) = NONE)
    by (vm_compute; reflexivity).
  split; [|split].
  - pose proof (proj2 (proj2 (flushDecoder_transitions false false avPlaying)
                         (or_introl Hnv)) _ Hv) as Hx.
    vm_compute in Hx. vm_compute. exact Hx.
  - pose proof (proj2 (proj2 (flushDecoder_transitions true true
                                (audioPlaying DISCONTINUITY_FORMATCHANGE))
                         (or_introl Hna)) _ Ha) as Hx.
    vm_compute in Hx. vm_compute. exact Hx.
  - apply (proj1 (flushDecoder_transitions false true avVideoFlushing)).
    + vm_compute. discriminate.
    + vm_compute. discriminate.
Defined.

(* ------------------------------------------------------------------ *)
(** ** Scanning the source *)

(** C7: when a kWhatScanSources of the current generation is processed
    and the two [instantiateDecoder] attempts have been made, the handler
    asks the source to feed more data.  If the answer is false and both
    decoders are still absent, the listener is notified of
    MEDIA_PLAYBACK_COMPLETE (the event is sent when the listener is still
    there) and nothing is posted.  If the answer is true and a decoder is
    still absent, the same message is posted again with a delay of
    100000 microseconds and [mScanSourcesPending] is set.  If both
    decoders exist, nothing is posted. *)
Theorem scanSources_current_generation {W : Type} `{World W} :
  forall (s s1 : State W) (src : Source) (more : bool) (w1 : W),
    scanInstantiate s = Ok s1 ->
    mSource s1 = Some src ->
    source_feedMoreTSData src (world s1) = (more, w1) ->
    let msg := kWhatScanSources (Some (mScanSourcesGeneration s)) in
    let s2 := set_world w1 (call Source_feedMoreTSData s1) in
    exists s',
      onMessageReceived msg s = Ok s'
      /\ (more = false ->
          isNull (mAudioDecoder s1) = true -> isNull (mVideoDecoder s1) = true ->
          s' = notifyListener MEDIA_PLAYBACK_COMPLETE 0 0 s2
          /\ queue s' = queue s
          /\ mScanSourcesPending s' = false
          /\ (forall l, mListener s = Some l -> listener_promote l w1 = true ->
              trace s' = trace s2 ++ [Listener_sendEvent MEDIA_PLAYBACK_COMPLETE 0 0]))
      /\ (more = true ->
          isNull (mAudioDecoder s1) || isNull (mVideoDecoder s1) = true ->
          s' = set_mScanSourcesPending true (post msg 100000 s2)
          /\ queue s' = queue s ++ [(msg, 100000)]
          /\ mScanSourcesPending s' = true)
      /\ (isNull (mAudioDecoder s1) = false -> isNull (mVideoDecoder s1) = false ->
          s' = s2 /\ queue s' = queue s /\ mScanSourcesPending s' = false).
Proof.
  intros s s1 src more w1 Hinst Hsrc Hfeed msg s2.
  destruct (scanInstantiate_frame s s1 Hinst) as (Hq & Hp & Hl).
  assert (Hrun : onMessageReceived msg s = scanFeed msg s1).
  { subst msg. simpl. rewrite Z.eqb_refl. simpl. rewrite Hinst. reflexivity. }
  rewrite Hrun. unfold scanFeed. rewrite Hsrc, Hfeed. fold s2.
  change (mAudioDecoder s2) with (mAudioDecoder s1).
  change (mVideoDecoder s2) with (mVideoDecoder s1).
  destruct more, (mAudioDecoder s1), (mVideoDecoder s1); simpl;
    eexists; (split; [reflexivity|]);
    (split; [|split]); try discriminate; intros;
    try (destruct (notifyListener_fields MEDIA_PLAYBACK_COMPLETE 0 0 s2)
           as (_ & _ & _ & _ & Hnq & Hnp & _));
    repeat split; simpl; try congruence;
    try (rewrite Hnq; exact Hq); try (rewrite Hnp; exact Hp);
    try (intros l Hml Hlp;
         rewrite (notifyListener_live MEDIA_PLAYBACK_COMPLETE 0 0 s2 l);
         [reflexivity | simpl; congruence | exact Hlp]).
Qed.

(** The source of [emptyStarted] has no track and no data: the first scan
    completes playback and posts nothing.  The source of [audioWorld] has
    an audio track only and more data: the scan is posted again. *)
Lemma scanSources_witness :
  (trace (stateOr emptyStarted (step (Queued 0%nat) emptyStarted))
   = trace emptyStarted
     ++ [Source_getFormat false; Source_getFormat true; Source_feedMoreTSData;
         Listener_sendEvent MEDIA_PLAYBACK_COMPLETE 0 0])
  /\ queue (audioPlaying DISCONTINUITY_FORMATCHANGE)
     = [(kWhatScanSources (Some 0), 100000)].
Proof.
  split.
  - assert (Hinst : scanInstantiate (set_queue [] emptyStarted)
                    = Ok (stateOr emptyStarted
                            (scanInstantiate (set_queue [] emptyStarted))))
      by (vm_compute; reflexivity).
    destruct (scanSources_current_generation
                (set_queue [] emptyStarted) _ 1%nat false emptyWorld Hinst
                ltac:(vm_compute; reflexivity) ltac:(vm_compute; reflexivity))
      as (s' & Hrun & Hdone & _).
    destruct (Hdone eq_refl ltac:(vm_compute; reflexivity)
                ltac:(vm_compute; reflexivity)) as (_ & _ & _ & Htrace).
    specialize (Htrace 1%nat ltac:(vm_compute; reflexivity)
                  ltac:(vm_compute; reflexivity)).
    assert (Hs : stateOr emptyStarted (step (Queued 0%nat) emptyStarted) = s').
    { change s' with (stateOr emptyStarted (Ok s')).
      rewrite <- Hrun. vm_compute. reflexivity. }
    rewrite Hs, Htrace. vm_compute. reflexivity.
  - assert (Hinst : scanInstantiate (set_queue [] (audioStarted DISCONTINUITY_FORMATCHANGE))
                    = Ok (stateOr (audioStarted DISCONTINUITY_FORMATCHANGE)
                            (scanInstantiate
                               (set_queue [] (audioStarted DISCONTINUITY_FORMATCHANGE)))))
      by (vm_compute; reflexivity).
    destruct (scanSources_current_generation
                (set_queue [] (audioStarted DISCONTINUITY_FORMATCHANGE))
                _ 1%nat true
                (mkScript [Some 3%nat] [] [true] []
                   [(INFO_DISCONTINUITY,
                     Some (mkABuffer 0 (Some DISCONTINUITY_FORMATCHANGE)))]
                   [] true)
                Hinst
                ltac:(vm_compute; reflexivity) ltac:(vm_compute; reflexivity))
      as (s' & Hrun & _ & Hmore & _).
    destruct (Hmore eq_refl ltac:(vm_compute; reflexivity)) as (_ & Hq & _).
    assert (Hs : audioPlaying DISCONTINUITY_FORMATCHANGE = s').
    { change s' with (stateOr (audioStarted DISCONTINUITY_FORMATCHANGE) (Ok s')).
      rewrite <- Hrun. vm_compute. reflexivity. }
    rewrite Hs, Hq. vm_compute. reflexivity.
Defined.

(* ------------------------------------------------------------------ *)
(** ** The renderer's end of stream *)

(** C8: a renderer EOS notification sets the EOS flag of the track it
    names (audio when the ["audio"] entry is not 0), and the handler
    notifies the listener of MEDIA_PLAYBACK_COMPLETE if and only if,
    after that update, both tracks are at EOS or without decoder.  With a
    listener that is still there, the event is sent in exactly that
    case. *)
Theorem rendererEOS_sets_flag_and_notifies {W : Type} `{World W} :
  forall (audio : Z) (s : State W),
    let s1 := if negb (audio =? 0) then set_mAudioEOS true s
              else set_mVideoEOS true s in
    onMessageReceived (eosNote audio) s
    = Ok (if eosOrAbsent s1
          then notifyListener MEDIA_PLAYBACK_COMPLETE 0 0 s1 else s1)
    /\ (audio <> 0 -> mAudioEOS s1 = true /\ mVideoEOS s1 = mVideoEOS s)
    /\ (audio = 0 -> mVideoEOS s1 = true /\ mAudioEOS s1 = mAudioEOS s)
    /\ (forall l s',
           mListener s = Some l -> listener_promote l (world s) = true ->
           onMessageReceived (eosNote audio) s = Ok s' ->
           (trace s' = trace s ++ [Listener_sendEvent MEDIA_PLAYBACK_COMPLETE 0 0]
            <-> eosOrAbsent s' = true)
           /\ (trace s' = trace s <-> eosOrAbsent s' = false)).
Proof.
  intros audio s s1.
  assert (Hrun : onMessageReceived (eosNote audio) s
                 = Ok (if eosOrAbsent s1
                       then notifyListener MEDIA_PLAYBACK_COMPLETE 0 0 s1 else s1)).
  { subst s1. unfold eosOrAbsent. simpl.
    destruct (negb (audio =? 0)); simpl; break_match; reflexivity. }
  assert (Hne : forall (t : list Call) (c : Call), t ++ [c] <> t).
  { intros t c Heq. apply (f_equal (@length Call)) in Heq.
    rewrite length_app in Heq. simpl in Heq. lia. }
  split; [exact Hrun|]. split; [|split].
  - intros Ha. subst s1. destruct (Z.eqb_spec audio 0); [contradiction|].
    simpl. auto.
  - intros ->. subst s1. simpl. auto.
  - intros l s' Hl Hp Hs'. rewrite Hrun in Hs'. inv_ok.
    assert (Hl1 : mListener s1 = Some l)
      by (subst s1; destruct (negb (audio =? 0)); exact Hl).
    assert (Hp1 : listener_promote l (world s1) = true)
      by (subst s1; destruct (negb (audio =? 0)); exact Hp).
    assert (Ht1 : trace s1 = trace s)
      by (subst s1; destruct (negb (audio =? 0)); reflexivity).
    destruct (eosOrAbsent s1) eqn:Ec.
    + rewrite eosOrAbsent_notifyListener, Ec.
      rewrite (notifyListener_live _ _ _ _ l Hl1 Hp1). simpl. rewrite Ht1.
      split; split; intros Hx; try reflexivity; try discriminate.
      exfalso. exact (Hne _ _ Hx).
    + rewrite Ec, Ht1.
      split; split; intros Hx; try reflexivity; try discriminate.
      exfalso. exact (Hne _ _ (eq_sym Hx)).
Qed.

(** In [emptyStarted] there is no decoder: the first EOS completes
    playback.  In [avPlaying] both decoders exist: the audio EOS alone
    does not. *)
Lemma rendererEOS_witness :
  trace (stateOr emptyStarted (onMessageReceived (eosNote 1) emptyStarted))
  = trace emptyStarted ++ [Listener_sendEvent MEDIA_PLAYBACK_COMPLETE 0 0]
  /\ trace (stateOr avPlaying (onMessageReceived (eosNote 1) avPlaying))
     = trace avPlaying.
Proof.
  assert (He : onMessageReceived (eosNote 1) emptyStarted
               = Ok (stateOr emptyStarted (onMessageReceived (eosNote 1) emptyStarted)))
    by (vm_compute; reflexivity).
  assert (Ha : onMessageReceived (eosNote 1) avPlaying
               = Ok (stateOr avPlaying (onMessageReceived (eosNote 1) avPlaying)))
    by (vm_compute; reflexivity).
  split.
  - pose proof (proj2 (proj2 (proj2 (rendererEOS_sets_flag_and_notifies 1 emptyStarted)))
                  1%nat _ ltac:(vm_compute; reflexivity)
                  ltac:(vm_compute; reflexivity) He) as [[_ Hx] _].
    exact (Hx ltac:(vm_compute; reflexivity)).
  - pose proof (proj2 (proj2 (proj2 (rendererEOS_sets_flag_and_notifies 1 avPlaying)))
                  1%nat _ ltac:(vm_compute; reflexivity)
                  ltac:(vm_compute; reflexivity) Ha) as [_ [_ Hx]].
    exact (Hx ltac:(vm_compute; reflexivity)).
Defined.

(* ------------------------------------------------------------------ *)
(** ** How often playback completes *)

(** C4, as amended: the controller has no latch for the completion event.
    Each dispatched message sends MEDIA_PLAYBACK_COMPLETE at most once,
    and only a kWhatScanSources or a renderer EOS notification sends it:
    after any sequence of dispatched messages, the number of
    MEDIA_PLAYBACK_COMPLETE events sent has grown by at most the number
    of such messages in the sequence. *)
Theorem playback_complete_bounded_by_senders {W : Type} `{World W} :
  forall (msgs : list Msg) (s s' : State W),
    run msgs s = Ok s' ->
    (playbackCompletes (trace s) <= playbackCompletes (trace s')
     <= playbackCompletes (trace s) + countSenders msgs)%nat.
Proof.
  induction msgs as [|m msgs IH]; simpl; intros s s' Hrun.
  - inv_ok. unfold countSenders. simpl. lia.
  - unfold bind in Hrun.
    destruct (onMessageReceived m s) as [s1|] eqn:Em; [|discriminate].
    apply onMessageReceived_completes in Em. apply IH in Hrun.
    unfold countSenders in *. simpl.
    destruct (sendsPlaybackComplete m); simpl; lia.
Qed.

(** A start and one scan of a source without track and data: one message
    that can complete playback, one completion. *)
Lemma playback_complete_bounded_witness :
  (playbackCompletes (trace emptyStarted)
   <= playbackCompletes
        (trace (stateOr emptyStarted (run [kWhatScanSources (Some 0%Z)] emptyStarted)))
   <= playbackCompletes (trace emptyStarted)
      + countSenders [kWhatScanSources (Some 0%Z)])%nat.
Proof.
  apply (playback_complete_bounded_by_senders
           [kWhatScanSources (Some 0%Z)] emptyStarted).
  vm_compute. reflexivity.
Defined.

(** C4 as stated fails: in the epoch [lateVideoMsgs], which has one start
    and no reset, the audio track ends while no video decoder exists yet,
    and the video track is found and ends later: MEDIA_PLAYBACK_COMPLETE
    is sent twice and MEDIA_RESET_COMPLETE not at all. *)
Lemma playback_complete_twice_in_one_epoch :
  run lateVideoMsgs (player (audioWorld DISCONTINUITY_FORMATCHANGE))
  = Ok lateVideoDone
  /\ playbackCompletes (trace lateVideoDone) = 2%nat
  /\ trace lateVideoDone
     = [Source_start; Renderer_new (Some 2%nat); Looper_registerRenderer;
        Source_getFormat false; Source_getFormat true;
        Decoder_new true None; Looper_registerDecoder true;
        Decoder_configure true 5%nat; Source_feedMoreTSData;
        Listener_sendEvent MEDIA_PLAYBACK_COMPLETE 0 0;
        Source_getFormat false; Decoder_new false None;
        Looper_registerDecoder false; Decoder_configure false 3%nat;
        Source_feedMoreTSData;
        Listener_sendEvent MEDIA_PLAYBACK_COMPLETE 0 0].
Proof. vm_compute. repeat split; reflexivity. Qed.

(* ------------------------------------------------------------------ *)
(** ** The pending scan *)

(** C9, the code at the failing input: after the audio track of
    [audioFlushing] has started a flush, [mScanSourcesPending] is still
    set although the only scan message in the queue carries the previous
    generation.  That message is dropped when it is dispatched, and when
    the decoder has shut down [postScanSources] posts nothing: the queue
    is empty, the flag is set and the audio decoder is never created
    again. *)
Theorem scan_pending_stale_after_flush :
  steps (setup ++ [Queued 0%nat; External (kWhatAudioNotify (Some (fillReq 7%nat)))])
        (player (audioWorld DISCONTINUITY_FORMATCHANGE))
  = Ok (audioFlushing DISCONTINUITY_FORMATCHANGE)
  /\ mScanSourcesPending (audioFlushing DISCONTINUITY_FORMATCHANGE) = true
  /\ mScanSourcesGeneration (audioFlushing DISCONTINUITY_FORMATCHANGE) = 1
  /\ queue (audioFlushing DISCONTINUITY_FORMATCHANGE)
     = [(kWhatScanSources (Some 0), 100000)]
  /\ postedScans (mScanSourcesGeneration (audioFlushing DISCONTINUITY_FORMATCHANGE))
       (queue (audioFlushing DISCONTINUITY_FORMATCHANGE)) = 0%nat
  /\ steps (Queued 0%nat :: shutdownEvents) (audioFlushing DISCONTINUITY_FORMATCHANGE)
     = Ok formatChangeDone
  /\ mScanSourcesPending formatChangeDone = true
  /\ queue formatChangeDone = []
  /\ mAudioDecoder formatChangeDone = None
  /\ mFlushingAudio formatChangeDone = NONE
  /\ mFlushingVideo formatChangeDone = NONE.
Proof. vm_compute. repeat split; reflexivity. Qed.

(* ------------------------------------------------------------------ *)
(** ** No flush without a decoder *)




(* ------------------------------------------------------------------ *)
(** ** The life of a decoder handle *)

Section Decoders.

Context {W : Type} `{World W}.

Implicit Types s : State W.

Lemma notifyListener_cases m e1 e2 s :
  notifyListener m e1 e2 s = s
  \/ notifyListener m e1 e2 s = call (Listener_sendEvent m e1 e2) s.
Proof.
  unfold notifyListener. destruct (mListener s); auto.
  destruct (listener_promote _ _); auto.
Qed.

Lemma flushDecoder_decoders audio needShutdown s s' :
  flushDecoder audio needShutdown s = Ok s' ->
  mAudioDecoder s' = mAudioDecoder s /\ mVideoDecoder s' = mVideoDecoder s.
Proof.
  unfold flushDecoder, CHECK. intros Hf. crush; simpl; auto.
Qed.

Lemma finishFlushIfPossible_decoders s s' :
  finishFlushIfPossible s = Ok s' ->
  mAudioDecoder s' = mAudioDecoder s /\ mVideoDecoder s' = mVideoDecoder s.
Proof.
  unfold finishFlushIfPossible, finishReset, postScanSources, CHECK. intros Hf.
  crush; simpl; auto;
    match goal with
    | |- context [notifyListener ?m ?a ?b ?x] =>
        destruct (notifyListener_fields m a b x) as (-> & -> & _); simpl; auto
    end.
Qed.

Lemma instantiateDecoder_decoders audio s st s' :
  instantiateDecoder audio s = Ok (st, s') ->
  forall a d, decoderOf a s = Some d -> decoderOf a s' = Some d.
Proof.
  unfold instantiateDecoder, decoderOf. intros Hf a d Hd.
  destruct audio, a; simpl in *; try rewrite Hd in Hf; simpl in *;
    crush; simpl; congruence.
Qed.

Lemma scanInstantiate_decoders s s' :
  scanInstantiate s = Ok s' ->
  forall a d, decoderOf a s = Some d -> decoderOf a s' = Some d.
Proof.
  unfold scanInstantiate, bind. intros Hf a d Hd.
  assert (Hd0 : decoderOf a (set_mScanSourcesPending false s) = Some d)
    by exact Hd.
  destruct (instantiateDecoder false (set_mScanSourcesPending false s))
    as [[st1 s1]|] eqn:E1; [|discriminate].
  simpl in Hf. apply (instantiateDecoder_decoders _ _ _ _ E1 a d) in Hd0.
  destruct (negb (isNull (mAudioSink s1))); [|inv_ok; exact Hd0].
  destruct (instantiateDecoder true s1) as [[st2 s2]|] eqn:E2; [|discriminate].
  simpl in Hf. inv_ok.
  exact (instantiateDecoder_decoders _ _ _ _ E2 a d Hd0).
Qed.

Lemma feedDecoderInputData_decoders audio msg s st s' :
  feedDecoderInputData audio msg s = Ok (st, s') ->
  mAudioDecoder s' = mAudioDecoder s /\ mVideoDecoder s' = mVideoDecoder s.
Proof.
  unfold feedDecoderInputData, bind. intros Hf.
  crush; simpl; auto;
    match goal with
    | Hfl : flushDecoder _ _ _ = Ok _ |- _ =>
        apply flushDecoder_decoders in Hfl; exact Hfl
    end.
Qed.

Lemma onDecoderNotify_decoders audio msg cr s s' :
  onDecoderNotify audio msg cr s = Ok s' ->
  forall a d,
    decoderOf a s = Some d ->
    decoderOf a s' = Some d
    \/ (decoderOf a s' = None /\ a = audio
        /\ exists c, cr = Some c /\ cr_what c = Some kWhatShutdownCompleted).
Proof.
  unfold onDecoderNotify, bind, CHECK, renderBuffer. intros Hf a d Hd.
  repeat (break_match; try discriminate; inv_ok); inv_ok;
    try match goal with
      | Hfd : feedDecoderInputData _ _ _ = Ok _ |- _ =>
          apply feedDecoderInputData_decoders in Hfd; destruct Hfd as [Ha Hv]
      end;
    try (apply finishFlushIfPossible_decoders in Hf; destruct Hf as [Ha Hv]);
    unfold decoderOf in *; simpl in *;
    try (left; destruct a; congruence);
    destruct a; simpl in *;
    first [ left; congruence
          | right; split; [congruence|]; split; [reflexivity|]; eauto ].
Qed.

End Decoders.

(** X1: a decoder handle that is set is left as it is by every message
    but one: the shutdown acknowledgement of that very decoder, which
    clears it.  In particular no message replaces a decoder by another. *)
Theorem decoder_kept_until_shutdown_completed {W : Type} `{World W} :
  forall (m : Msg) (s s' : State W) (audio : bool) (d : Decoder),
    onMessageReceived m s = Ok s' ->
    decoderOf audio s = Some d ->
    decoderOf audio s' = Some d
    \/ (decoderOf audio s' = None /\ isShutdownCompleted audio m = true).
Proof.
  intros m s s' audio d.
  destruct m; simpl onMessageReceived.
  6, 7: intros Hf Hd;
        destruct (onDecoderNotify_decoders _ _ _ _ _ Hf audio d Hd)
          as [Hk | (Hn & -> & c & -> & Hw)];
        [left; exact Hk | right; split; [exact Hn|]; simpl; now rewrite Hw].
  all: unfold finishReset, scanFeed, postScanSources, CHECK, bind;
    intros Hf Hd; left;
    repeat (break_match; try discriminate; inv_ok); inv_ok;
    repeat match goal with
      | Hfl : flushDecoder _ _ _ = Ok _ |- _ =>
          apply flushDecoder_decoders in Hfl; destruct Hfl as [? ?]
      | Hsc : scanInstantiate _ = Ok _ |- _ =>
          apply (scanInstantiate_decoders _ _ Hsc audio d) in Hd; clear Hsc
      end;
    try match goal with
      | |- context [notifyListener ?m ?a ?b ?x] =>
          let Ha := fresh in let Hv := fresh in
          destruct (notifyListener_fields m a b x) as (Ha & Hv & _);
          unfold decoderOf; rewrite Ha, Hv; clear Ha Hv
      end;
    unfold decoderOf in *; simpl; destruct audio; simpl in Hd |- *; congruence.
Qed.

(** The reset of [avPlaying] flushes the audio decoder and keeps it. *)
Lemma decoder_kept_until_shutdown_completed_witness :
  decoderOf true (stateOr avPlaying (onMessageReceived kWhatReset avPlaying))
  = Some (mkDecoder true None)
  \/ (decoderOf true (stateOr avPlaying (onMessageReceived kWhatReset avPlaying))
      = None
      /\ isShutdownCompleted true kWhatReset = true).
Proof.
  assert (Hf : onMessageReceived kWhatReset avPlaying
               = Ok (stateOr avPlaying (onMessageReceived kWhatReset avPlaying)))
    by (vm_compute; reflexivity).
  assert (Hd : decoderOf true avPlaying = Some (mkDecoder true None))
    by (vm_compute; reflexivity).
  exact (decoder_kept_until_shutdown_completed kWhatReset avPlaying _ true _ Hf Hd).
Defined.

(* ------------------------------------------------------------------ *)
(** ** The two tracks together *)

Section Tracks.

Context {W : Type} `{World W}.

Implicit Types s : State W.

Ltac solve_trackInv :=
  unfold trackInv, idleTogether, awaitingHasDecoder, resetShutsDown in *;
  simpl in *;
  intuition (first [congruence | discriminate]).

Lemma NuPlayer_trackInv (w : W) (listener : option Listener) :
  trackInv (setListener listener (NuPlayer w)).
Proof. solve_trackInv. Qed.

Lemma trackInv_notifyListener m e1 e2 s :
  trackInv s -> trackInv (notifyListener m e1 e2 s).
Proof.
  destruct (notifyListener_cases m e1 e2 s) as [-> | ->]; [auto|].
  intros Hi. exact Hi.
Qed.

Lemma flushDecoder_trackInv audio needShutdown s s' :
  flushDecoder audio needShutdown s = Ok s' -> trackInv s -> trackInv s'.
Proof.
  destruct s as [l so su si vd ad r ae ve pe g fa fv rip rp w t q].
  unfold flushDecoder, CHECK. simpl.
  destruct audio, needShutdown; simpl; destruct ad, vd, r; try discriminate;
    destruct fa, fv; simpl; intros Hf Hi; inv_ok; solve_trackInv.
Qed.

Lemma finishFlushIfPossible_trackInv s s' :
  finishFlushIfPossible s = Ok s' -> trackInv s -> trackInv s'.
Proof.
  destruct s as [l so su si vd ad r ae ve pe g fa fv rip rp w t q].
  unfold finishFlushIfPossible, finishReset, postScanSources, CHECK. simpl.
  destruct fa, fv; simpl; try (intros Hf Hi; inv_ok; exact Hi);
    destruct r; try discriminate;
    destruct rip, rp, pe, ad, vd; simpl; intros Hf Hi; inv_ok;
    try apply trackInv_notifyListener; solve_trackInv.
Qed.

Lemma instantiateDecoder_trackInv audio s st s' :
  instantiateDecoder audio s = Ok (st, s') -> trackInv s -> trackInv s'.
Proof.
  destruct s as [l so su si vd ad r ae ve pe g fa fv rip rp w t q].
  unfold instantiateDecoder. simpl.
  destruct audio, ad, vd, so; simpl; try discriminate;
    try (intros Hf Hi; inv_ok; exact Hi);
    destruct (source_getFormat _ _ _) as [[m|] w1];
    intros Hf Hi; inv_ok; solve_trackInv.
Qed.

Lemma scanInstantiate_trackInv s s' :
  scanInstantiate s = Ok s' -> trackInv s -> trackInv s'.
Proof.
  unfold scanInstantiate, bind. intros Hf Hi.
  assert (Hi0 : trackInv (set_mScanSourcesPending false s)) by exact Hi.
  destruct (instantiateDecoder false (set_mScanSourcesPending false s))
    as [[st1 s1]|] eqn:E1; [|discriminate].
  simpl in Hf. apply (instantiateDecoder_trackInv _ _ _ _ E1) in Hi0.
  destruct (negb (isNull (mAudioSink s1))); [|inv_ok; exact Hi0].
  destruct (instantiateDecoder true s1) as [[st2 s2]|] eqn:E2; [|discriminate].
  simpl in Hf. inv_ok.
  exact (instantiateDecoder_trackInv _ _ _ _ E2 Hi0).
Qed.

Lemma feedDecoderInputData_trackInv audio msg s st s' :
  feedDecoderInputData audio msg s = Ok (st, s') -> trackInv s -> trackInv s'.
Proof.
  unfold feedDecoderInputData, bind. intros Hf Hi.
  repeat (break_match; try discriminate); inv_ok; try exact Hi;
    match goal with
    | Hfl : flushDecoder _ _ _ = Ok _ |- _ =>
        apply flushDecoder_trackInv in Hfl; [exact Hfl | exact Hi]
    end.
Qed.

Lemma trackInv_flushCompleted audio needShutdown s :
  trackInv s ->
  IsFlushingState (flushingOf audio s) = (true, Some needShutdown) ->
  trackInv
    (if needShutdown then
       if audio
       then set_mFlushingAudio SHUTTING_DOWN_DECODER
              (call (Decoder_initiateShutdown audio) (set_mFlushingAudio FLUSHED s))
       else set_mFlushingVideo SHUTTING_DOWN_DECODER
              (call (Decoder_initiateShutdown audio) (set_mFlushingVideo FLUSHED s))
     else if audio then set_mFlushingAudio FLUSHED s
          else set_mFlushingVideo FLUSHED s).
Proof.
  destruct s as [l so su si vd ad r ae ve pe g fa fv rip rp w t q].
  unfold IsFlushingState, flushingOf. simpl.
  destruct audio, fa, fv; simpl; intros Hi Hfl; try discriminate;
    inv_ok; solve_trackInv.
Qed.

Lemma trackInv_shutdownCompleted audio s :
  trackInv s ->
  flushingOf audio s = SHUTTING_DOWN_DECODER ->
  trackInv (if audio then set_mFlushingAudio SHUT_DOWN (set_mAudioDecoder None s)
            else set_mFlushingVideo SHUT_DOWN (set_mVideoDecoder None s)).
Proof.
  destruct s as [l so su si vd ad r ae ve pe g fa fv rip rp w t q].
  unfold flushingOf. simpl.
  destruct audio, fa, fv; simpl; intros Hi Hfl; try discriminate;
    solve_trackInv.
Qed.

Lemma onDecoderNotify_trackInv audio msg cr s s' :
  onDecoderNotify audio msg cr s = Ok s' -> trackInv s -> trackInv s'.
Proof.
  unfold onDecoderNotify. destruct cr as [cr|]; [|discriminate].
  destruct (cr_what cr) as [[]|]; try discriminate.
  - unfold bind. intros Hf Hi.
    destruct (feedDecoderInputData audio cr s) as [[err s1]|] eqn:Efd;
      [|discriminate].
    apply feedDecoderInputData_trackInv in Efd; [|exact Hi].
    repeat (break_match; try discriminate); inv_ok; exact Efd.
  - unfold renderBuffer. intros Hf Hi.
    repeat (break_match; try discriminate); inv_ok; exact Hi.
  - intros Hf Hi. repeat (break_match; try discriminate); inv_ok; exact Hi.
  - unfold CHECK. intros Hf Hi.
    destruct audio; simpl in Hf;
      match type of Hf with
      | (if FlushStatus_eqb ?st _ then _ else _) = _ =>
          destruct st eqn:Est; simpl in Hf; try discriminate
      end;
      apply finishFlushIfPossible_trackInv in Hf; try exact Hf.
    + exact (trackInv_shutdownCompleted true s Hi Est).
    + exact (trackInv_shutdownCompleted false s Hi Est).
  - unfold bind. intros Hf Hi.
    destruct (IsFlushingState (if audio then mFlushingAudio s else mFlushingVideo s))
      as [[|] [needShutdown|]] eqn:Efl; try discriminate.
    pose proof (trackInv_flushCompleted audio needShutdown s Hi) as Hi1.
    unfold flushingOf in Hi1. specialize (Hi1 Efl).
    destruct needShutdown, audio;
      repeat (break_match; try discriminate); inv_ok;
      apply finishFlushIfPossible_trackInv in Hf; try exact Hf; exact Hi1.
  - unfold CHECK. intros Hf Hi.
    repeat (break_match; try discriminate); inv_ok; exact Hi.
Qed.

Lemma reset_trackInv s s' :
  onMessageReceived kWhatReset s = Ok s' -> trackInv s -> trackInv s'.
Proof.
  destruct s as [l so su si vd ad r ae ve pe g fa fv rip rp w t q].
  simpl. unfold flushDecoder, finishReset, CHECK, bind. simpl.
  destruct fa, fv; simpl; try (intros Hf Hi; inv_ok; solve_trackInv);
    destruct ad, vd, r; simpl; intros Hf Hi; inv_ok;
    try apply trackInv_notifyListener; solve_trackInv.
Qed.

Lemma onMessageReceived_trackInv m s s' :
  onMessageReceived m s = Ok s' -> trackInv s -> trackInv s'.
Proof.
  destruct m.
  10: exact (reset_trackInv s s').
  6, 7: simpl onMessageReceived; apply onDecoderNotify_trackInv.
  all: simpl onMessageReceived; unfold scanFeed, postScanSources, CHECK, bind; intros Hf Hi;
    repeat (break_match; try discriminate); inv_ok;
    try match goal with
      | Hsc : scanInstantiate _ = Ok _ |- _ =>
          apply scanInstantiate_trackInv in Hsc; [|exact Hi]
      end;
    try apply trackInv_notifyListener;
    first [ exact Hi | assumption ].
Qed.

Lemma steps_trackInv es : forall s s',
  steps es s = Ok s' -> trackInv s -> trackInv s'.
Proof.
  induction es as [|e es IH]; simpl; intros s s' Hf Hi.
  - now inv_ok.
  - unfold bind in Hf. destruct (step e s) as [s1|] eqn:Es; [|discriminate].
    apply (IH s1 s' Hf).
    destruct e as [m|n]; simpl in Es.
    + exact (onMessageReceived_trackInv _ _ _ Es Hi).
    + unfold dispatchQueued in Es.
      destruct (nth_error (queue s) n) as [[m d]|]; [|now inv_ok].
      exact (onMessageReceived_trackInv _ _ _ Es Hi).
Qed.

End Tracks.

(** X2: in every state the controller reaches from its initial state,
    the two tracks are idle together: [mFlushingAudio] is NONE exactly
    when [mFlushingVideo] is. *)
Theorem tracks_idle_together {W : Type} `{World W} :
  forall (w : W) (listener : option Listener) (es : list Event) (s : State W),
    steps es (setListener listener (NuPlayer w)) = Ok s ->
    (mFlushingAudio s = NONE <-> mFlushingVideo s = NONE).
Proof.
  intros w listener es s Hsteps.
  exact (proj1 (steps_trackInv es _ _ Hsteps (NuPlayer_trackInv w listener))).
Qed.

(** While the video track of [avVideoFlushing] flushes, the audio track
    is not idle either. *)
Lemma tracks_idle_together_witness :
  mFlushingVideo avVideoFlushing <> NONE /\ mFlushingAudio avVideoFlushing <> NONE.
Proof.
  assert (Hsteps : steps (setup ++ [Queued 0%nat;
                                    External (kWhatVideoNotify (Some (fillReq 3%nat)))])
                         (setListener (Some 1%nat) (NuPlayer avWorld))
                   = Ok avVideoFlushing)
    by (vm_compute; reflexivity).
  assert (Hv : mFlushingVideo avVideoFlushing <> NONE)
    by (vm_compute; discriminate).
  split; [exact Hv|].
  intros Ha. exact (Hv (proj1 (tracks_idle_together _ _ _ _ Hsteps) Ha)).
Defined.

(** X3: in every state the controller reaches from its initial state, a
    track in AWAITING_DISCONTINUITY has a decoder. *)
Theorem awaiting_track_has_decoder {W : Type} `{World W} :
  forall (w : W) (listener : option Listener) (es : list Event) (s : State W)
         (audio : bool),
    steps es (setListener listener (NuPlayer w)) = Ok s ->
    flushingOf audio s = AWAITING_DISCONTINUITY ->
    decoderOf audio s <> None.
Proof.
  intros w listener es s audio Hsteps.
  destruct (steps_trackInv es _ _ Hsteps (NuPlayer_trackInv w listener))
    as (_ & [Ha Hv] & _).
  destruct audio; assumption.
Qed.

(** The audio track of [avVideoFlushing] awaits its discontinuity. *)
Lemma awaiting_track_has_decoder_witness :
  decoderOf true avVideoFlushing <> None.
Proof.
  assert (Hsteps : steps (setup ++ [Queued 0%nat;
                                    External (kWhatVideoNotify (Some (fillReq 3%nat)))])
                         (setListener (Some 1%nat) (NuPlayer avWorld))
                   = Ok avVideoFlushing)
    by (vm_compute; reflexivity).
  assert (Ha : flushingOf true avVideoFlushing = AWAITING_DISCONTINUITY)
    by (vm_compute; reflexivity).
  exact (awaiting_track_has_decoder _ _ _ _ true Hsteps Ha).
Defined.

(** X4: in every state the controller reaches from its initial state,
    while [mResetInProgress] is set each track is in
    FLUSHING_DECODER_SHUTDOWN, SHUTTING_DOWN_DECODER, SHUT_DOWN or
    FLUSHED: no track is idle, awaits a discontinuity or flushes without
    a shutdown to follow. *)
Theorem reset_in_progress_shuts_down {W : Type} `{World W} :
  forall (w : W) (listener : option Listener) (es : list Event) (s : State W),
    steps es (setListener listener (NuPlayer w)) = Ok s ->
    mResetInProgress s = true ->
    shutdownRequested (mFlushingAudio s) = true
    /\ shutdownRequested (mFlushingVideo s) = true.
Proof.
  intros w listener es s Hsteps.
  exact (proj2 (proj2 (steps_trackInv es _ _ Hsteps (NuPlayer_trackInv w listener)))).
Qed.

(** In [resetOnce] a reset is in progress. *)
Lemma reset_in_progress_shuts_down_witness :
  shutdownRequested (mFlushingAudio resetOnce) = true
  /\ shutdownRequested (mFlushingVideo resetOnce) = true.
Proof.
  assert (Hsteps : steps (setup ++ [Queued 0%nat; External kWhatReset])
                         (setListener (Some 1%nat)
                            (NuPlayer (audioWorld DISCONTINUITY_FORMATCHANGE)))
                   = Ok resetOnce)
    by (vm_compute; reflexivity).
  assert (Hr : mResetInProgress resetOnce = true) by (vm_compute; reflexivity).
  exact (reset_in_progress_shuts_down _ _ _ _ Hsteps Hr).
Defined.

(* ------------------------------------------------------------------ *)
(** ** What is said to the listener, and when a flush ends *)

Lemma countCalls_snoc (p : Call -> bool) (a : list Call) (c : Call) :
  countCalls p (a ++ [c]) = (countCalls p a + if p c then 1 else 0)%nat.
Proof.
  unfold countCalls. rewrite filter_app, length_app. simpl.
  destruct (p c); reflexivity.
Qed.

Lemma loudOnly_quiet (p : Call -> bool) (c : Call) :
  loudOnly p -> isListenerEvent c || isFlushEnd c = false -> p c = false.
Proof.
  intros Hp Hc. destruct (p c) eqn:Epc; [|reflexivity].
  apply Hp in Epc. congruence.
Qed.

Lemma isFlushEnd_loudOnly : loudOnly isFlushEnd.
Proof. intros c Hc. rewrite Hc. apply orb_true_r. Qed.

Lemma isListenerEvent_loudOnly : loudOnly isListenerEvent.
Proof. intros c Hc. now rewrite Hc. Qed.

Lemma isResetComplete_loudOnly : loudOnly isResetComplete.
Proof. intros c Hc. destruct c; try discriminate. reflexivity. Qed.

Ltac count_simpl Hp :=
  simpl; rewrite ?countCalls_snoc;
  repeat rewrite (loudOnly_quiet _ _ Hp) by reflexivity;
  simpl; try lia.

Section Loud.

Context {W : Type} `{World W}.

Implicit Types s : State W.

Lemma quietStep_refl s : quietStep s s.
Proof. split; auto. Qed.

Lemma quietStep_trans s s1 s2 :
  quietStep s s1 -> quietStep s1 s2 -> quietStep s s2.
Proof.
  intros [Hl1 Hc1] [Hl2 Hc2]. split; [congruence|].
  intros p Hp. rewrite (Hc2 p Hp). exact (Hc1 p Hp).
Qed.

Lemma quietStep_loudEffect s s' : quietStep s s' -> loudEffect s s'.
Proof.
  intros [Hl Hc]. split; [exact Hl|]. split; [|split].
  - intros Hne. exfalso. apply Hne. exact (Hc _ isFlushEnd_loudOnly).
  - intros Hne. exfalso. apply Hne. exact (Hc _ isResetComplete_loudOnly).
  - intros _. exact (Hc _ isListenerEvent_loudOnly).
Qed.

Lemma quiet_then_loud s s1 s2 :
  quietStep s s1 -> loudEffect s1 s2 -> loudEffect s s2.
Proof.
  intros [Hl Hc] (Hl2 & He & Hr & Hn). unfold loudEffect.
  rewrite <- (Hc _ isFlushEnd_loudOnly), <- (Hc _ isResetComplete_loudOnly),
    <- (Hc _ isListenerEvent_loudOnly).
  split; [congruence|]. split; [exact He|]. split; [exact Hr|].
  intros Hnone. apply Hn. congruence.
Qed.

Lemma flushDecoder_quietStep audio needShutdown s s' :
  flushDecoder audio needShutdown s = Ok s' -> quietStep s s'.
Proof.
  unfold flushDecoder, CHECK. intros Hf.
  repeat (break_match; try discriminate; inv_ok); inv_ok;
    (split; [reflexivity | intros p Hp; count_simpl Hp]).
Qed.

Lemma instantiateDecoder_quietStep audio s st s' :
  instantiateDecoder audio s = Ok (st, s') -> quietStep s s'.
Proof.
  unfold instantiateDecoder. intros Hf.
  repeat (break_match; try discriminate; inv_ok); inv_ok;
    (split; [reflexivity | intros p Hp; count_simpl Hp]).
Qed.

Lemma scanInstantiate_quietStep s s' :
  scanInstantiate s = Ok s' -> quietStep s s'.
Proof.
  unfold scanInstantiate, bind. intros Hf.
  destruct (instantiateDecoder false (set_mScanSourcesPending false s))
    as [[st1 s1]|] eqn:E1; [|discriminate].
  simpl in Hf. apply instantiateDecoder_quietStep in E1.
  assert (Hq1 : quietStep s s1) by exact E1.
  destruct (negb (isNull (mAudioSink s1))); [|inv_ok; exact Hq1].
  destruct (instantiateDecoder true s1) as [[st2 s2]|] eqn:E2; [|discriminate].
  simpl in Hf. inv_ok. apply instantiateDecoder_quietStep in E2.
  exact (quietStep_trans _ _ _ Hq1 E2).
Qed.

Lemma feedDecoderInputData_quietStep audio msg s st s' :
  feedDecoderInputData audio msg s = Ok (st, s') -> quietStep s s'.
Proof.
  unfold feedDecoderInputData, bind. intros Hf.
  repeat (break_match; try discriminate; inv_ok); inv_ok;
    try match goal with
      | Hfl : flushDecoder _ _ _ = Ok _ |- _ =>
          apply flushDecoder_quietStep in Hfl; destruct Hfl as [Hl Hc]
      end;
    (split; [simpl; try assumption; reflexivity
            | intros p Hp; count_simpl Hp;
              try (rewrite (Hc p Hp); count_simpl Hp)]).
Qed.

Lemma finishFlushIfPossible_loudEffect s s' :
  finishFlushIfPossible s = Ok s' -> loudEffect s s'.
Proof.
  destruct s as [l so su si vd ad r ae ve pe g fa fv rip rp w t q].
  unfold finishFlushIfPossible, finishReset, postScanSources, notifyListener,
    CHECK, loudEffect, tornDown.
  simpl.
  destruct fa, fv; simpl;
    try (intros Hf; inv_ok; simpl; intuition congruence);
    destruct r; try discriminate;
    destruct rip, rp, pe, ad, vd; simpl; try discriminate;
    try destruct l as [l|]; try destruct (listener_promote l w);
    intros Hf; inv_ok; simpl; rewrite ?countCalls_snoc; simpl;
    repeat split; auto; try discriminate; intros; try lia.
Qed.

Lemma finishReset_loudEffect s s' :
  finishReset s = Ok s' ->
  mFlushingAudio s = NONE -> mFlushingVideo s = NONE ->
  loudEffect s s'.
Proof.
  destruct s as [l so su si vd ad r ae ve pe g fa fv rip rp w t q].
  unfold finishReset, notifyListener, CHECK, loudEffect, tornDown. simpl.
  destruct ad, vd; simpl; try discriminate;
    try destruct l as [l|]; try destruct (listener_promote l w);
    intros Hf -> ->; inv_ok; simpl; rewrite ?countCalls_snoc; simpl;
    repeat split; auto; try discriminate; intros; try lia.
Qed.

Lemma notifyListener_loudEffect s :
  loudEffect s (notifyListener MEDIA_PLAYBACK_COMPLETE 0 0 s).
Proof.
  unfold notifyListener.
  destruct (mListener s) as [l|] eqn:El;
    [|apply quietStep_loudEffect, quietStep_refl].
  destruct (listener_promote l (world s));
    [|apply quietStep_loudEffect, quietStep_refl].
  unfold loudEffect. simpl. rewrite !countCalls_snoc. simpl.
  repeat split; auto; intros; try lia; congruence.
Qed.

Lemma onDecoderNotify_loudEffect audio msg cr s s' :
  onDecoderNotify audio msg cr s = Ok s' -> loudEffect s s'.
Proof.
  unfold onDecoderNotify. destruct cr as [cr|]; [|discriminate].
  destruct (cr_what cr) as [[]|]; try discriminate.
  - unfold bind. intros Hf.
    destruct (feedDecoderInputData audio cr s) as [[err s1]|] eqn:Efd;
      [|discriminate].
    apply feedDecoderInputData_quietStep in Efd. apply quietStep_loudEffect.
    repeat (break_match; try discriminate); inv_ok; try exact Efd;
      (eapply quietStep_trans; [exact Efd|]);
      (split; [reflexivity | intros p Hp; count_simpl Hp]).
  - unfold renderBuffer. intros Hf. apply quietStep_loudEffect.
    repeat (break_match; try discriminate); inv_ok.
    split; [reflexivity | intros p Hp; count_simpl Hp].
  - intros Hf. apply quietStep_loudEffect.
    repeat (break_match; try discriminate); inv_ok.
    split; [reflexivity | intros p Hp; count_simpl Hp].
  - unfold CHECK. intros Hf.
    destruct audio; simpl in Hf;
      repeat (break_match; try discriminate);
      apply finishFlushIfPossible_loudEffect in Hf;
      (eapply quiet_then_loud; [|exact Hf]);
      (split; [reflexivity | intros p Hp; reflexivity]).
  - unfold bind. intros Hf.
    repeat (break_match; try discriminate); inv_ok;
      apply finishFlushIfPossible_loudEffect in Hf;
      (eapply quiet_then_loud; [|exact Hf]);
      (split; [reflexivity | intros p Hp; count_simpl Hp]).
  - unfold CHECK. intros Hf. apply quietStep_loudEffect.
    repeat (break_match; try discriminate); inv_ok.
    split; [reflexivity | intros p Hp; count_simpl Hp].
Qed.

Lemma reset_loudEffect s s' :
  onMessageReceived kWhatReset s = Ok s' -> loudEffect s s'.
Proof.
  simpl. unfold bind. intros Hf.
  destruct (FlushStatus_eqb (mFlushingAudio s) NONE) eqn:Ea;
    [|simpl in Hf; inv_ok; apply quietStep_loudEffect;
      split; [reflexivity | intros p Hp; reflexivity]].
  destruct (FlushStatus_eqb (mFlushingVideo s) NONE) eqn:Ev;
    [|simpl in Hf; inv_ok; apply quietStep_loudEffect;
      split; [reflexivity | intros p Hp; reflexivity]].
  simpl in Hf.
  destruct (isNull (mAudioDecoder s) && isNull (mVideoDecoder s)).
  - apply finishReset_loudEffect; [exact Hf | |].
    + destruct (mFlushingAudio s); try discriminate; reflexivity.
    + destruct (mFlushingVideo s); try discriminate; reflexivity.
  - apply quietStep_loudEffect.
    repeat (break_match; try discriminate); inv_ok;
      repeat match goal with
        | Hfl : flushDecoder _ _ _ = Ok _ |- _ =>
            apply flushDecoder_quietStep in Hfl
        end;
      repeat (eapply quietStep_trans; [eassumption|]);
      (split; [reflexivity | intros p Hp; reflexivity]).
Qed.

Lemma onMessageReceived_loudEffect m s s' :
  onMessageReceived m s = Ok s' -> loudEffect s s'.
Proof.
  destruct m.
  10: exact (reset_loudEffect s s').
  6, 7: simpl onMessageReceived; apply onDecoderNotify_loudEffect.
  all: simpl onMessageReceived; unfold scanFeed, postScanSources, CHECK, bind;
    intros Hf;
    repeat (break_match; try discriminate); inv_ok;
    try match goal with
      | Hsc : scanInstantiate _ = Ok _ |- _ =>
          apply scanInstantiate_quietStep in Hsc
      end;
    try match goal with
      | |- loudEffect _ (notifyListener _ _ _ ?x) =>
          apply (quiet_then_loud _ x); [|apply notifyListener_loudEffect]
      end;
    try apply quietStep_loudEffect;
    try (eapply quietStep_trans; [eassumption|]);
    (split; [reflexivity | intros p Hp; count_simpl Hp]).
Qed.

End Loud.

(** X5: whatever the message, if its handler sends MEDIA_RESET_COMPLETE
    then it leaves nothing of the playback: no source, no renderer, no
    decoder, and both tracks idle. *)
Theorem reset_complete_only_when_torn_down {W : Type} `{World W} :
  forall (m : Msg) (s s' : State W),
    onMessageReceived m s = Ok s' ->
    countCalls isResetComplete (trace s') <> countCalls isResetComplete (trace s) ->
    tornDown s'.
Proof.
  intros m s s' Hf.
  exact (proj1 (proj2 (proj2 (onMessageReceived_loudEffect m s s' Hf)))).
Qed.

(** The shutdown acknowledgement that ends the reset of [resetTwice]
    sends the event. *)
Lemma reset_complete_only_when_torn_down_witness :
  tornDown resetTwiceDone.
Proof.
  assert (Hrun : onMessageReceived
                   (kWhatAudioNotify (Some (codecNote kWhatShutdownCompleted)))
                   (stateOr resetTwice
                      (step (External (kWhatAudioNotify
                                         (Some (codecNote kWhatFlushCompleted))))
                            resetTwice))
                 = Ok resetTwiceDone)
    by (vm_compute; reflexivity).
  apply (reset_complete_only_when_torn_down _ _ _ Hrun).
  vm_compute. discriminate.
Defined.

(** X6: whatever the message, if its handler signals the renderer's time
    discontinuity or resumes a decoder, then both tracks are idle
    afterwards: no decoder is resumed while the other track still
    flushes. *)
Theorem flush_ends_with_idle_tracks {W : Type} `{World W} :
  forall (m : Msg) (s s' : State W),
    onMessageReceived m s = Ok s' ->
    countCalls isFlushEnd (trace s') <> countCalls isFlushEnd (trace s) ->
    mFlushingAudio s' = NONE /\ mFlushingVideo s' = NONE.
Proof.
  intros m s s' Hf.
  exact (proj1 (proj2 (onMessageReceived_loudEffect m s s' Hf))).
Qed.

(** The flush acknowledgement of the audio decoder in
    [resetWhileFlushing] ends the flush. *)
Lemma flush_ends_with_idle_tracks_witness :
  mFlushingAudio
    (stateOr resetWhileFlushing
       (onMessageReceived (kWhatAudioNotify (Some (codecNote kWhatFlushCompleted)))
          resetWhileFlushing)) = NONE
  /\ mFlushingVideo
       (stateOr resetWhileFlushing
          (onMessageReceived (kWhatAudioNotify (Some (codecNote kWhatFlushCompleted)))
             resetWhileFlushing)) = NONE.
Proof.
  assert (Hrun : onMessageReceived
                   (kWhatAudioNotify (Some (codecNote kWhatFlushCompleted)))
                   resetWhileFlushing
                 = Ok (stateOr resetWhileFlushing
                         (onMessageReceived
                            (kWhatAudioNotify (Some (codecNote kWhatFlushCompleted)))
                            resetWhileFlushing)))
    by (vm_compute; reflexivity).
  apply (flush_ends_with_idle_tracks _ _ _ Hrun).
  vm_compute. discriminate.
Defined.

(** X7: no message changes the listener, and a controller without
    listener sends no event, whatever the events it processes. *)
Theorem no_listener_no_event {W : Type} `{World W} :
  forall (es : list Event) (s s' : State W),
    steps es s = Ok s' ->
    mListener s' = mListener s
    /\ (mListener s = None ->
        countCalls isListenerEvent (trace s') = countCalls isListenerEvent (trace s)).
Proof.
  induction es as [|e es IH]; simpl; intros s s' Hf.
  - inv_ok. auto.
  - unfold bind in Hf. destruct (step e s) as [s1|] eqn:Es; [|discriminate].
    destruct (IH s1 s' Hf) as [Hl Hc].
    assert (He : mListener s1 = mListener s
                 /\ (mListener s = None ->
                     countCalls isListenerEvent (trace s1)
                     = countCalls isListenerEvent (trace s))).
    { destruct e as [m|n]; simpl in Es.
      - destruct (onMessageReceived_loudEffect m s s1 Es) as (Hl1 & _ & _ & Hn1).
        auto.
      - unfold dispatchQueued in Es.
        destruct (nth_error (queue s) n) as [[m d]|]; [|inv_ok; auto].
        destruct (onMessageReceived_loudEffect m _ s1 Es) as (Hl1 & _ & _ & Hn1).
        auto. }
    destruct He as [Hl1 Hc1]. split; [congruence|].
    intros Hn. rewrite Hc, Hc1; [reflexivity | exact Hn | congruence].
Qed.

(** A player without listener, started on a source without track or
    data: the scan finds playback complete, and no event is sent. *)
Lemma no_listener_no_event_witness :
  countCalls isListenerEvent
    (trace (stateOr (NuPlayer emptyWorld)
              (steps (setup ++ [Queued 0%nat]) (NuPlayer emptyWorld))))
  = countCalls isListenerEvent (trace (NuPlayer emptyWorld)).
Proof.
  assert (Hsteps : steps (setup ++ [Queued 0%nat]) (NuPlayer emptyWorld)
                   = Ok (stateOr (NuPlayer emptyWorld)
                           (steps (setup ++ [Queued 0%nat]) (NuPlayer emptyWorld))))
    by (vm_compute; reflexivity).
  apply (proj2 (no_listener_no_event _ _ _ Hsteps)).
  vm_compute. reflexivity.
Defined.

(* ------------------------------------------------------------------ *)
(** ** A decoder's request for input *)

Lemma status_eqb_eq (a b : status_t) : status_eqb a b = true -> a = b.
Proof.
  destruct a, b; simpl; intros Hab; try discriminate; try reflexivity.
  apply Z.eqb_eq in Hab. now subst.
Qed.




(** X9: when the source answers a request for input with a discontinuity
    and the track is idle or awaits one, its decoder and the renderer
    are told to flush, the scan generation moves on, the track goes to
    FLUSHING_DECODER_SHUTDOWN for a format change and to FLUSHING_DECODER
    for any other kind, the other track is no longer idle, and the
    request is answered with the error INFO_DISCONTINUITY, not with a
    buffer.  A discontinuity on a track that is already shutting down,
    flushed or shut down aborts. *)
Theorem discontinuity_starts_flush {W : Type} `{World W} :
  forall (audio : bool) (cr : CodecRequest) (reply : Reply) (s : State W)
         (src : Source) (au : ABuffer) (type : DiscontinuityType) (w1 : W),
    cr_reply cr = Some reply ->
    mSource s = Some src ->
    source_dequeueAccessUnit src audio (world s) = (INFO_DISCONTINUITY, Some au, w1) ->
    ab_discontinuity au = Some type ->
    decoderOf audio s <> None ->
    mRenderer s <> None ->
    (flushingOf audio s = NONE \/ flushingOf audio s = AWAITING_DISCONTINUITY ->
     exists s',
       feedDecoderInputData audio cr s = Ok (OK, s')
       /\ flushingOf audio s'
          = (if is_FORMATCHANGE type
             then FLUSHING_DECODER_SHUTDOWN else FLUSHING_DECODER)
       /\ flushingOf (negb audio) s' <> NONE
       /\ mScanSourcesGeneration s' = int32_incr (mScanSourcesGeneration s)
       /\ world s' = w1
       /\ trace s'
          = trace s ++ [Source_dequeueAccessUnit audio; Decoder_signalFlush audio;
                        Renderer_flush audio;
                        Reply_post reply (ReplyErr INFO_DISCONTINUITY)])
    /\ (flushingOf audio s = SHUTTING_DOWN_DECODER \/ flushingOf audio s = FLUSHED
        \/ flushingOf audio s = SHUT_DOWN ->
        feedDecoderInputData audio cr s = Abort CheckFailed).
Proof.
  intros audio cr reply s src au type w1.
  destruct s as [l so su si vd ad r ae ve pe g fa fv rip rp w t q].
  unfold feedDecoderInputData, flushDecoder, CHECK, bind, flushingOf, decoderOf.
  simpl. intros -> -> Hdq Hty Hd Hr. rewrite Hdq. simpl. rewrite Hty.
  destruct r; [|congruence].
  split.
  - intros Hfl. destruct audio; simpl in *.
    + destruct ad; [|congruence].
      destruct Hfl as [-> | ->]; simpl;
        destruct (is_FORMATCHANGE type), fv, vd; simpl;
        eexists; (split; [reflexivity|]); simpl;
        repeat split; try discriminate;
        rewrite <- ?app_assoc; reflexivity.
    + destruct vd; [|congruence].
      destruct Hfl as [-> | ->]; simpl;
        destruct (is_FORMATCHANGE type), fa, ad; simpl;
        eexists; (split; [reflexivity|]); simpl;
        repeat split; try discriminate;
        rewrite <- ?app_assoc; reflexivity.
  - intros Hfl.
    destruct audio; simpl in *;
      [destruct ad; [|congruence] | destruct vd; [|congruence]];
      destruct Hfl as [-> | [-> | ->]]; reflexivity.
Qed.

(** The video track of [avPlaying] meets a time discontinuity. *)
Lemma discontinuity_starts_flush_witness :
  exists s',
    feedDecoderInputData false (fillReq 3%nat) avPlaying = Ok (OK, s')
    /\ flushingOf false s' = FLUSHING_DECODER
    /\ flushingOf true s' <> NONE.
Proof.
  assert (Hsrc : mSource avPlaying = Some 1%nat) by (vm_compute; reflexivity).
  assert (Hdq : source_dequeueAccessUnit 1%nat false (world avPlaying)
                = (INFO_DISCONTINUITY,
                   Some (mkABuffer 0 (Some (DISCONTINUITY_OTHER 1))),
                   mkScript [] [] [] [] [(OK, Some (mkABuffer 9 None))] [] true))
    by (vm_compute; reflexivity).
  assert (Hd : decoderOf false avPlaying <> None) by (vm_compute; discriminate).
  assert (Hr : mRenderer avPlaying <> None) by (vm_compute; discriminate).
  assert (Hn : flushingOf false avPlaying = NONE) by (vm_compute; reflexivity).
  destruct (proj1 (discontinuity_starts_flush false (fillReq 3%nat) 3%nat avPlaying
                     _ _ _ _ eq_refl Hsrc Hdq eq_refl Hd Hr) (or_introl Hn))
    as (s' & Hrun & Hfl & Hpeer & _).
  exists s'. auto.
Defined.

(* ------------------------------------------------------------------ *)
(** ** From the acknowledgements to the end of a flush *)

(** X10: a track in FLUSHING_DECODER_SHUTDOWN whose peer is quiescent,
    with no reset in progress or postponed: when its decoder acknowledges
    the flush and then the shutdown, the decoder is told to shut down,
    its handle is cleared, the renderer is told of the time
    discontinuity, the peer's decoder is resumed if it is still there,
    both tracks are idle, and a scan of the current generation is posted
    unless one was pending already. *)
Theorem format_change_completes {W : Type} `{World W} :
  forall (audio : bool) (cr1 cr2 : CodecRequest) (s : State W),
    cr_what cr1 = Some kWhatFlushCompleted ->
    cr_what cr2 = Some kWhatShutdownCompleted ->
    flushingOf audio s = FLUSHING_DECODER_SHUTDOWN ->
    quiescent (flushingOf (negb audio) s) = true ->
    decoderOf audio s <> None ->
    mRenderer s <> None ->
    mResetInProgress s = false ->
    mResetPostponed s = false ->
    exists s',
      run [notifyMsg audio cr1; notifyMsg audio cr2] s = Ok s'
      /\ mFlushingAudio s' = NONE /\ mFlushingVideo s' = NONE
      /\ decoderOf audio s' = None
      /\ decoderOf (negb audio) s' = decoderOf (negb audio) s
      /\ trace s'
         = trace s
           ++ Decoder_initiateShutdown audio :: Renderer_signalTimeDiscontinuity
              :: (if negb (FlushStatus_eqb (flushingOf (negb audio) s) SHUT_DOWN)
                     && negb (isNull (decoderOf (negb audio) s))
                  then [Decoder_signalResume (negb audio)] else [])
      /\ mScanSourcesPending s' = true
      /\ queue s'
         = (if mScanSourcesPending s then queue s
            else queue s ++ [(kWhatScanSources (Some (mScanSourcesGeneration s)), 0)]).
Proof.
  intros audio cr1 cr2 s.
  destruct s as [l so su si vd ad r ae ve pe g fa fv rip rp w t q].
  unfold run, notifyMsg, flushingOf, decoderOf, quiescent. simpl.
  intros Hw1 Hw2 Hfl Hq Hd Hr -> ->.
  destruct r; [|congruence].
  destruct audio; simpl in *; subst;
    unfold onDecoderNotify, bind; rewrite Hw1; simpl;
    [destruct ad; [|congruence] | destruct vd; [|congruence]]; simpl;
    unfold finishFlushIfPossible; simpl; rewrite Hw2; simpl;
    [destruct fv | destruct fa]; try discriminate; simpl;
    unfold postScanSources; simpl;
    [destruct vd | destruct vd | destruct ad | destruct ad]; destruct pe; simpl;
    eexists; (split; [reflexivity|]); simpl;
    rewrite <- ?app_assoc; simpl; repeat split; reflexivity.
Qed.

(** The audio track of [audioFlushing] met a format change; the scan that
    was pending is stale, but the flag is still set. *)
Lemma format_change_completes_witness :
  exists s',
    run [notifyMsg true (codecNote kWhatFlushCompleted);
         notifyMsg true (codecNote kWhatShutdownCompleted)]
        (audioFlushing DISCONTINUITY_FORMATCHANGE) = Ok s'
    /\ mFlushingAudio s' = NONE /\ mFlushingVideo s' = NONE
    /\ decoderOf true s' = None.
Proof.
  destruct (format_change_completes true (codecNote kWhatFlushCompleted)
              (codecNote kWhatShutdownCompleted)
              (audioFlushing DISCONTINUITY_FORMATCHANGE)
              eq_refl eq_refl
              ltac:(vm_compute; reflexivity) ltac:(vm_compute; reflexivity)
              ltac:(vm_compute; discriminate) ltac:(vm_compute; discriminate)
              ltac:(vm_compute; reflexivity) ltac:(vm_compute; reflexivity))
    as (s' & Hrun & Ha & Hv & Hd & _).
  exists s'. auto.
Defined.

(** X11: a reset of an idle player that holds both decoders: after the
    reset message and the flush and shutdown acknowledgements of both
    decoders, nothing is left of the playback, the scan generation has
    moved on twice, nothing was posted, and the calls made are the two
    flushes, the two shutdowns, the time discontinuity and, for a
    listener that is still there, MEDIA_RESET_COMPLETE. *)
Theorem reset_completes {W : Type} `{World W} :
  forall (fc sc : CodecRequest) (s : State W),
    cr_what fc = Some kWhatFlushCompleted ->
    cr_what sc = Some kWhatShutdownCompleted ->
    mFlushingAudio s = NONE ->
    mFlushingVideo s = NONE ->
    mAudioDecoder s <> None ->
    mVideoDecoder s <> None ->
    mRenderer s <> None ->
    exists s',
      run [kWhatReset;
           kWhatAudioNotify (Some fc); kWhatVideoNotify (Some fc);
           kWhatAudioNotify (Some sc); kWhatVideoNotify (Some sc)] s = Ok s'
      /\ tornDown s'
      /\ mResetInProgress s' = false
      /\ mScanSourcesGeneration s'
         = int32_incr (int32_incr (mScanSourcesGeneration s))
      /\ queue s' = queue s
      /\ (forall l, mListener s = Some l -> listener_promote l (world s) = true ->
          trace s'
          = trace s
            ++ [Decoder_signalFlush true; Renderer_flush true;
                Decoder_signalFlush false; Renderer_flush false;
                Decoder_initiateShutdown true; Decoder_initiateShutdown false;
                Renderer_signalTimeDiscontinuity;
                Listener_sendEvent MEDIA_RESET_COMPLETE 0 0]).
Proof.
  intros fc sc s.
  destruct s as [l so su si vd ad r ae ve pe g fa fv rip rp w t q].
  destruct fc as [w1 b1 r1 c1 a1]. destruct sc as [w2 b2 r2 c2 a2].
  cbn [cr_what mFlushingAudio mFlushingVideo mAudioDecoder mVideoDecoder
       mRenderer mListener world trace queue].
  intros -> -> -> -> Ha Hv Hr.
  destruct ad; [|congruence]. destruct vd; [|congruence].
  destruct r; [|congruence].
  destruct l as [l|]; [destruct (listener_promote l w) eqn:Ep|].
  all: eexists; split;
    [cbv -[int32_incr app listener_promote]; rewrite ?Ep; reflexivity|].
  all: cbv -[int32_incr app listener_promote]; repeat split; try reflexivity.
  all: intros l' Hl Hp'; try discriminate; inversion Hl; subst; try congruence.
  all: rewrite <- ?app_assoc; reflexivity.
Qed.

(** [avPlaying] holds both decoders. *)
Lemma reset_completes_witness :
  exists s',
    run [kWhatReset;
         kWhatAudioNotify (Some (codecNote kWhatFlushCompleted));
         kWhatVideoNotify (Some (codecNote kWhatFlushCompleted));
         kWhatAudioNotify (Some (codecNote kWhatShutdownCompleted));
         kWhatVideoNotify (Some (codecNote kWhatShutdownCompleted))] avPlaying
    = Ok s'
    /\ tornDown s'.
Proof.
  destruct (reset_completes (codecNote kWhatFlushCompleted)
              (codecNote kWhatShutdownCompleted) avPlaying
              eq_refl eq_refl
              ltac:(vm_compute; reflexivity) ltac:(vm_compute; reflexivity)
              ltac:(vm_compute; discriminate) ltac:(vm_compute; discriminate)
              ltac:(vm_compute; discriminate))
    as (s' & Hrun & Ht & _).
  exists s'. auto.
Defined.

(** X12: a reset that finds both tracks idle and no decoder finishes at
    once: the source is cleared, but the scan generation, the posted
    messages and [mScanSourcesPending] stay as they are.  A scan of the
    current generation that is in the queue, when it is dispatched after
    that reset, dereferences the cleared source: the process ends. *)
Theorem reset_without_decoders_keeps_scan {W : Type} `{World W} :
  forall (s : State W) (n : nat) (delayUs : Z),
    mFlushingAudio s = NONE ->
    mFlushingVideo s = NONE ->
    mAudioDecoder s = None ->
    mVideoDecoder s = None ->
    nth_error (queue s) n
    = Some (kWhatScanSources (Some (mScanSourcesGeneration s)), delayUs) ->
    (exists s1,
        step (External kWhatReset) s = Ok s1
        /\ mSource s1 = None
        /\ mScanSourcesGeneration s1 = mScanSourcesGeneration s
        /\ queue s1 = queue s
        /\ mScanSourcesPending s1 = mScanSourcesPending s)
    /\ steps [External kWhatReset; Queued n] s = Abort NullSource.
Proof.
  intros s n delayUs.
  destruct s as [l so su si vd ad r ae ve pe g fa fv rip rp w t q].
  simpl. intros -> -> -> -> Hq. simpl.
  unfold finishReset, CHECK, notifyListener, bind, dispatchQueued. simpl.
  destruct l as [l|]; [destruct (listener_promote l w)|]; simpl;
    (split; [eexists; split; [reflexivity|]; simpl; auto|]);
    rewrite Hq; simpl; rewrite Z.eqb_refl; reflexivity.
Qed.

(** In [emptyStarted] the first scan is posted and no track has been
    found. *)
Lemma reset_without_decoders_keeps_scan_witness :
  steps [External kWhatReset; Queued 0%nat] emptyStarted = Abort NullSource.
Proof.
  apply (proj2 (reset_without_decoders_keeps_scan emptyStarted 0%nat 0
                  ltac:(vm_compute; reflexivity) ltac:(vm_compute; reflexivity)
                  ltac:(vm_compute; reflexivity) ltac:(vm_compute; reflexivity)
                  ltac:(vm_compute; reflexivity))).
Defined.

(* ------------------------------------------------------------------ *)
(** ** Acknowledgements out of turn *)

Lemma finishFlushIfPossible_status {W : Type} `{World W} (s s' : State W) :
  finishFlushIfPossible s = Ok s' ->
  (mFlushingAudio s' = mFlushingAudio s /\ mFlushingVideo s' = mFlushingVideo s)
  \/ (mFlushingAudio s' = NONE /\ mFlushingVideo s' = NONE).
Proof.
  unfold finishFlushIfPossible, finishReset, postScanSources, CHECK. intros Hf.
  crush; simpl; auto;
    match goal with
    | |- context [notifyListener ?m ?a ?b ?x] =>
        destruct (notifyListener_fields m a b x) as (_ & _ & -> & -> & _);
        simpl; auto
    end.
Qed.

(** X13: a decoder's acknowledgement of a flush, or of a shutdown, is
    accepted once: whatever the state in which the first one was handled,
    a second one of the same kind from the same decoder, arriving next,
    fails a CHECK. *)
Theorem acknowledgement_accepted_once {W : Type} `{World W} :
  forall (audio : bool) (cr cr' : CodecRequest) (s s' : State W),
    cr_what cr = Some kWhatFlushCompleted
    \/ cr_what cr = Some kWhatShutdownCompleted ->
    cr_what cr' = cr_what cr ->
    onMessageReceived (notifyMsg audio cr) s = Ok s' ->
    onMessageReceived (notifyMsg audio cr') s' = Abort CheckFailed.
Proof.
  intros audio cr cr' s s' Hw Hw'.
  unfold notifyMsg.
  destruct audio; simpl onMessageReceived; unfold onDecoderNotify, bind, CHECK;
    rewrite Hw'; destruct Hw as [Hw | Hw]; rewrite Hw; simpl; intros Hf;
    repeat (break_match; try discriminate; inv_ok);
    apply finishFlushIfPossible_status in Hf; simpl in Hf;
    destruct Hf as [[Ha Hv] | [Ha Hv]];
    simpl in *;
    repeat match goal with
      | Hx : context [mFlushingAudio s'] |- _ =>
          lazymatch Hx with Ha => fail | _ => rewrite Ha in Hx end
      | Hx : context [mFlushingVideo s'] |- _ =>
          lazymatch Hx with Hv => fail | _ => rewrite Hv in Hx end
      end;
    simpl in *; try discriminate; congruence.
Qed.

Lemma acknowledgement_accepted_once_witness :
  exists s',
    onMessageReceived (notifyMsg true (codecNote kWhatFlushCompleted))
      (audioFlushing (DISCONTINUITY_OTHER 1)) = Ok s'
    /\ onMessageReceived (notifyMsg true (codecNote kWhatFlushCompleted)) s'
       = Abort CheckFailed.
Proof.
  assert (Hf : onMessageReceived (notifyMsg true (codecNote kWhatFlushCompleted))
                 (audioFlushing (DISCONTINUITY_OTHER 1))
               = Ok (stateOr (audioFlushing (DISCONTINUITY_OTHER 1))
                       (onMessageReceived
                          (notifyMsg true (codecNote kWhatFlushCompleted))
                          (audioFlushing (DISCONTINUITY_OTHER 1)))))
    by (vm_compute; reflexivity).
  eexists. split; [exact Hf|].
  exact (acknowledgement_accepted_once true
           (codecNote kWhatFlushCompleted) (codecNote kWhatFlushCompleted)
           _ _ (or_introl eq_refl) eq_refl Hf).
Defined.

(* ------------------------------------------------------------------ *)
(** ** A change of the audio output format *)

Lemma sink_calls_flat {W : Type} `{World W} (c1 c2 c3 c4 : Call) (w1 : W)
    (s : State W) :
  call c4 (call c3 (set_world w1 (call c2 (call c1 s))))
  = set_world w1 (set_trace (trace s ++ [c1; c2; c3; c4]) s).
Proof.
  destruct s as [l so su si vd ad r ae ve pe g fa fv rip rp w t q].
  cbv -[app]. rewrite <- !app_assoc. reflexivity.
Qed.

(** X14: the video decoder announcing a new output format fails a CHECK.
    For the audio decoder the message is handled exactly when it carries a
    channel count and a sample rate, an audio sink is set, the sink opens
    with these two values with status OK, and there is a renderer; the
    sink is then closed, opened, started, and the renderer is told, in
    this order, and nothing else of the state changes. *)
Theorem output_format_change_reopens_sink {W : Type} `{World W} :
  forall (cr : CodecRequest) (s : State W),
    cr_what cr = Some kWhatOutputFormatChanged ->
    onMessageReceived (kWhatVideoNotify (Some cr)) s = Abort CheckFailed
    /\ forall s',
        onMessageReceived (kWhatAudioNotify (Some cr)) s = Ok s'
        <-> exists numChannels sampleRate sink w1,
              cr_channel_count cr = Some numChannels
              /\ cr_sample_rate cr = Some sampleRate
              /\ mAudioSink s = Some sink
              /\ sink_open sink sampleRate numChannels (world s) = (OK, w1)
              /\ mRenderer s <> None
              /\ s' = set_world w1
                        (set_trace
                           (trace s
                            ++ [AudioSink_close;
                                AudioSink_open sampleRate numChannels;
                                AudioSink_start;
                                Renderer_signalAudioSinkChanged]) s).
Proof.
  intros cr s Hw. simpl. unfold onDecoderNotify, CHECK. rewrite Hw. simpl.
  split; [reflexivity|].
  intros s'. split.
  - destruct (cr_channel_count cr) as [ch|]; [|discriminate].
    destruct (cr_sample_rate cr) as [rate|]; [|discriminate].
    destruct (mAudioSink s) as [sink|]; [|discriminate].
    destruct (sink_open sink rate ch (world s)) as [st w1] eqn:Eo.
    destruct (status_eqb st OK) eqn:Est; [|discriminate].
    apply status_eqb_eq in Est. subst st.
    destruct (mRenderer s) eqn:Er; [|discriminate].
    intros Hf. inversion Hf; subst; clear Hf.
    exists ch, rate, sink, w1.
    repeat split; try congruence. apply sink_calls_flat.
  - intros (ch & rate & sink & w1 & -> & -> & -> & Ho & Hr & ->).
    rewrite Ho. simpl. destruct (mRenderer s); [|congruence].
    f_equal. apply sink_calls_flat.
Qed.

Lemma output_format_change_reopens_sink_witness :
  onMessageReceived (kWhatVideoNotify (Some (codecNote kWhatOutputFormatChanged)))
    avPlaying
  = Abort CheckFailed.
Proof.
  exact (proj1 (output_format_change_reopens_sink
                  (codecNote kWhatOutputFormatChanged) avPlaying eq_refl)).
Defined.

(* ------------------------------------------------------------------ *)
(** ** When the scan generation moves *)

Section Generation.

Context {W : Type} `{World W}.

Implicit Types s : State W.

Lemma notifyListener_generation m e1 e2 s :
  mScanSourcesGeneration (notifyListener m e1 e2 s) = mScanSourcesGeneration s.
Proof.
  destruct (notifyListener_cases m e1 e2 s) as [-> | ->]; reflexivity.
Qed.

Lemma finishFlushIfPossible_keeps_generation s s' :
  finishFlushIfPossible s = Ok s' ->
  mScanSourcesGeneration s' = mScanSourcesGeneration s.
Proof.
  unfold finishFlushIfPossible, finishReset, postScanSources, CHECK. intros Hf.
  crush; simpl; auto; rewrite notifyListener_generation; reflexivity.
Qed.

Lemma instantiateDecoder_keeps_generation audio s st s' :
  instantiateDecoder audio s = Ok (st, s') ->
  mScanSourcesGeneration s' = mScanSourcesGeneration s.
Proof.
  unfold instantiateDecoder. intros Hf. crush; reflexivity.
Qed.

Lemma scanInstantiate_keeps_generation s s' :
  scanInstantiate s = Ok s' ->
  mScanSourcesGeneration s' = mScanSourcesGeneration s.
Proof.
  unfold scanInstantiate, bind. intros Hf.
  destruct (instantiateDecoder false (set_mScanSourcesPending false s))
    as [[st1 s1]|] eqn:E1; [|discriminate].
  simpl in Hf. apply instantiateDecoder_keeps_generation in E1. simpl in E1.
  destruct (negb (isNull (mAudioSink s1))); [|inv_ok; exact E1].
  destruct (instantiateDecoder true s1) as [[st2 s2]|] eqn:E2; [|discriminate].
  simpl in Hf. inv_ok.
  apply instantiateDecoder_keeps_generation in E2. congruence.
Qed.

Lemma flushDecoder_someFlushing audio needShutdown s s' :
  flushDecoder audio needShutdown s = Ok s' -> someFlushing s' = true.
Proof.
  unfold flushDecoder, CHECK, someFlushing. intros Hf.
  destruct audio, needShutdown; crush; simpl;
    rewrite ?orb_true_r; try reflexivity;
    match goal with
    | |- context [fst (IsFlushingState ?x)] => destruct x; simpl in *;
        try discriminate; reflexivity
    end.
Qed.

Lemma feedDecoderInputData_generation audio msg s st s' :
  feedDecoderInputData audio msg s = Ok (st, s') ->
  mScanSourcesGeneration s' = mScanSourcesGeneration s
  \/ (mScanSourcesGeneration s' = int32_incr (mScanSourcesGeneration s)
      /\ someFlushing s' = true).
Proof.
  unfold feedDecoderInputData, bind. intros Hf.
  crush; simpl; auto;
    match goal with
    | Hfl : flushDecoder _ _ _ = Ok _ |- _ =>
        right; split;
        [apply flushDecoder_generation in Hfl; exact Hfl
        |apply flushDecoder_someFlushing in Hfl; exact Hfl]
    end.
Qed.

Lemma onDecoderNotify_generation audio msg cr s s' :
  onDecoderNotify audio msg cr s = Ok s' ->
  mScanSourcesGeneration s' = mScanSourcesGeneration s
  \/ (mScanSourcesGeneration s' = int32_incr (mScanSourcesGeneration s)
      /\ someFlushing s' = true
      /\ exists c, cr = Some c /\ cr_what c = Some kWhatFillThisBuffer).
Proof.
  unfold onDecoderNotify, bind, CHECK, renderBuffer. intros Hf.
  repeat (break_match; try discriminate; inv_ok); inv_ok;
    try match goal with
      | Hfd : feedDecoderInputData _ _ _ = Ok _ |- _ =>
          apply feedDecoderInputData_generation in Hfd;
          destruct Hfd as [Hg | [Hg Hs]];
          [left; simpl; exact Hg
          |right; split; [exact Hg|]; split; [exact Hs|]; eauto]
      end;
    try (apply finishFlushIfPossible_keeps_generation in Hf; simpl in Hf);
    left; simpl; auto.
Qed.

End Generation.

(** X15: the scan generation moves only while a reset or a decoder's
    request for input is handled, and then a flush has just been started:
    in the state that results, a track is in FLUSHING_DECODER or
    FLUSHING_DECODER_SHUTDOWN. *)
Theorem generation_moves_only_with_flush {W : Type} `{World W} :
  forall (m : Msg) (s s' : State W),
    onMessageReceived m s = Ok s' ->
    mScanSourcesGeneration s' <> mScanSourcesGeneration s ->
    reachesFlushDecoder m = true /\ someFlushing s' = true.
Proof.
  intros m s s'.
  destruct m; simpl onMessageReceived.
  10: { unfold finishReset, CHECK, bind. intros Hf Hg.
        repeat (break_match; try discriminate; inv_ok); inv_ok;
          try (exfalso; apply Hg; simpl;
               rewrite ?notifyListener_generation; reflexivity);
          (split; [reflexivity|]);
          match goal with
          | Hfl : flushDecoder _ _ _ = Ok ?x
            |- someFlushing (set_mResetInProgress true ?x) = true =>
              apply flushDecoder_someFlushing in Hfl; exact Hfl
          end. }
  6, 7: intros Hf Hg;
        destruct (onDecoderNotify_generation _ _ _ _ _ Hf)
          as [Hk | (Hi & Hs & c & -> & Hw)];
        [contradiction | simpl; rewrite Hw; auto].
  all: unfold scanFeed, postScanSources, CHECK, bind; intros Hf Hg;
    exfalso; apply Hg;
    repeat (break_match; try discriminate; inv_ok); inv_ok; simpl;
    rewrite ?notifyListener_generation; simpl;
    try match goal with
      | Hsc : scanInstantiate _ = Ok _ |- _ =>
          apply scanInstantiate_keeps_generation in Hsc; exact Hsc
      end;
    reflexivity.
Qed.

(** The reset of [avPlaying] flushes both decoders. *)
Lemma generation_moves_only_with_flush_witness :
  someFlushing (stateOr avPlaying (onMessageReceived kWhatReset avPlaying)) = true.
Proof.
  assert (Hf : onMessageReceived kWhatReset avPlaying
               = Ok (stateOr avPlaying (onMessageReceived kWhatReset avPlaying)))
    by (vm_compute; reflexivity).
  assert (Hg : mScanSourcesGeneration
                 (stateOr avPlaying (onMessageReceived kWhatReset avPlaying))
               <> mScanSourcesGeneration avPlaying)
    by (vm_compute; discriminate).
  exact (proj2 (generation_moves_only_with_flush kWhatReset avPlaying _ Hf Hg)).
Defined.

(* ------------------------------------------------------------------ *)
(** ** Where decoders come from *)

Section Creation.

Context {W : Type} `{World W}.

Implicit Types s : State W.

Lemma instantiateDecoder_elsewhere audio s st s' :
  instantiateDecoder audio s = Ok (st, s') ->
  mSurface s' = mSurface s /\ mAudioSink s' = mAudioSink s
  /\ mSource s' = mSource s.
Proof.
  unfold instantiateDecoder. intros Hf. crush; simpl; auto.
Qed.

Lemma instantiateDecoder_creates audio s st s' :
  instantiateDecoder audio s = Ok (st, s') ->
  forall a d,
    decoderOf a s = None -> decoderOf a s' = Some d ->
    a = audio
    /\ d = mkDecoder audio (if audio then None else mSurface s)
    /\ mSource s <> None.
Proof.
  unfold instantiateDecoder, decoderOf. intros Hf a d Hn Hd.
  destruct audio, a; simpl in *;
    repeat (break_match; try discriminate; inv_ok); inv_ok;
    simpl in *; try congruence;
    repeat split; congruence.
Qed.

Lemma scanInstantiate_creates s s' :
  scanInstantiate s = Ok s' ->
  forall a d,
    decoderOf a s = None -> decoderOf a s' = Some d ->
    d = mkDecoder a (if a then None else mSurface s)
    /\ mSource s <> None
    /\ (a = true -> mAudioSink s <> None).
Proof.
  unfold scanInstantiate, bind. intros Hf a d Hn Hd.
  assert (Hn0 : decoderOf a (set_mScanSourcesPending false s) = None)
    by exact Hn.
  destruct (instantiateDecoder false (set_mScanSourcesPending false s))
    as [[st1 s1]|] eqn:E1; [|discriminate].
  simpl in Hf.
  destruct (instantiateDecoder_elsewhere _ _ _ _ E1) as (Hsu & Hsi & Hso).
  simpl in Hsu, Hsi, Hso.
  destruct (decoderOf a s1) as [d1|] eqn:Ed1.
  - destruct (instantiateDecoder_creates _ _ _ _ E1 a d1 Hn0 Ed1)
      as (-> & -> & Hsrc).
    simpl in Hsrc |- *.
    assert (Hd1 : decoderOf false s' = Some (mkDecoder false (mSurface s))).
    { destruct (negb (isNull (mAudioSink s1))); [|inv_ok; exact Ed1].
      destruct (instantiateDecoder true s1) as [[st2 s2]|] eqn:E2;
        [|discriminate].
      simpl in Hf. inv_ok.
      exact (instantiateDecoder_decoders _ _ _ _ E2 false _ Ed1). }
    rewrite Hd1 in Hd. inversion Hd; subst.
    repeat split; [exact Hsrc | discriminate].
  - destruct (negb (isNull (mAudioSink s1))) eqn:Esink;
      [|inv_ok; congruence].
    destruct (instantiateDecoder true s1) as [[st2 s2]|] eqn:E2;
      [|discriminate].
    simpl in Hf. inv_ok.
    destruct (instantiateDecoder_creates _ _ _ _ E2 a d Ed1 Hd)
      as (-> & -> & Hsrc).
    repeat split; [congruence|].
    intros _ Hnull. rewrite Hsi, Hnull in Esink. discriminate.
Qed.

Lemma scanFeed_decoders msg s s' :
  scanFeed msg s = Ok s' ->
  mAudioDecoder s' = mAudioDecoder s /\ mVideoDecoder s' = mVideoDecoder s.
Proof.
  unfold scanFeed. intros Hf.
  crush; simpl; auto;
    match goal with
    | |- context [notifyListener ?m ?a ?b ?x] =>
        destruct (notifyListener_fields m a b x) as (-> & -> & _); simpl; auto
    end.
Qed.

Lemma onDecoderNotify_no_decoder audio msg cr s s' :
  onDecoderNotify audio msg cr s = Ok s' ->
  forall a, decoderOf a s = None -> decoderOf a s' = None.
Proof.
  unfold onDecoderNotify, bind, CHECK, renderBuffer. intros Hf a Hd.
  repeat (break_match; try discriminate; inv_ok); inv_ok;
    try match goal with
      | Hfd : feedDecoderInputData _ _ _ = Ok _ |- _ =>
          apply feedDecoderInputData_decoders in Hfd; destruct Hfd as [Ha Hv]
      end;
    try (apply finishFlushIfPossible_decoders in Hf; destruct Hf as [Ha Hv]);
    unfold decoderOf in *; simpl in *;
    destruct a; simpl in *; congruence.
Qed.

End Creation.

(** X16: a decoder handle that was NULL before a message and is set after
    it: the message was a scan of the current generation, a source is set,
    for the audio decoder an audio sink is set too, and the decoder was
    made for this track, the video decoder with the surface and the audio
    decoder with none. *)
Theorem decoder_made_only_by_current_scan {W : Type} `{World W} :
  forall (m : Msg) (s s' : State W) (audio : bool) (d : Decoder),
    onMessageReceived m s = Ok s' ->
    decoderOf audio s = None ->
    decoderOf audio s' = Some d ->
    m = kWhatScanSources (Some (mScanSourcesGeneration s))
    /\ d = mkDecoder audio (if audio then None else mSurface s)
    /\ mSource s <> None
    /\ (audio = true -> mAudioSink s <> None).
Proof.
  intros m s s' audio d.
  destruct m; simpl onMessageReceived.
  6, 7: intros Hf Hn Hd;
        rewrite (onDecoderNotify_no_decoder _ _ _ _ _ Hf audio Hn) in Hd;
        discriminate.
  5: { destruct generation as [g|]; [|discriminate].
       destruct (Z.eqb_spec g (mScanSourcesGeneration s)) as [-> | Hne]; simpl;
         [|intros Hf Hn Hd; inv_ok; congruence].
       unfold bind. intros Hf Hn Hd.
       destruct (scanInstantiate s) as [s1|] eqn:Esc; [|discriminate].
       apply scanFeed_decoders in Hf. destruct Hf as [Ha Hv].
       assert (Hd1 : decoderOf audio s1 = Some d)
         by (unfold decoderOf in *; destruct audio; congruence).
       split; [reflexivity|].
       exact (scanInstantiate_creates _ _ Esc audio d Hn Hd1). }
  all: unfold finishReset, postScanSources, CHECK, bind;
    intros Hf Hn Hd; exfalso;
    repeat (break_match; try discriminate; inv_ok); inv_ok;
    repeat match goal with
      | Hfl : flushDecoder _ _ _ = Ok _ |- _ =>
          apply flushDecoder_decoders in Hfl; destruct Hfl as [? ?]
      end;
    try match goal with
      | Hx : context [notifyListener ?m ?a ?b ?x] |- _ =>
          let Ha := fresh in let Hv := fresh in
          destruct (notifyListener_fields m a b x) as (Ha & Hv & _);
          unfold decoderOf in Hx; rewrite Ha, Hv in Hx; clear Ha Hv
      end;
    unfold decoderOf in *; simpl in *; destruct audio; simpl in *; congruence.
Qed.

(** The first scan of [audioStarted] finds the audio track. *)
Lemma decoder_made_only_by_current_scan_witness :
  mSource (audioStarted (DISCONTINUITY_OTHER 1)) <> None
  /\ (true = true -> mAudioSink (audioStarted (DISCONTINUITY_OTHER 1)) <> None).
Proof.
  assert (Hf : onMessageReceived (kWhatScanSources (Some 0))
                 (audioStarted (DISCONTINUITY_OTHER 1))
               = Ok (stateOr (audioStarted (DISCONTINUITY_OTHER 1))
                       (onMessageReceived (kWhatScanSources (Some 0))
                          (audioStarted (DISCONTINUITY_OTHER 1)))))
    by (vm_compute; reflexivity).
  assert (Hn : decoderOf true (audioStarted (DISCONTINUITY_OTHER 1)) = None)
    by (vm_compute; reflexivity).
  assert (Hd : decoderOf true
                 (stateOr (audioStarted (DISCONTINUITY_OTHER 1))
                    (onMessageReceived (kWhatScanSources (Some 0))
                       (audioStarted (DISCONTINUITY_OTHER 1))))
               = Some (mkDecoder true None))
    by (vm_compute; reflexivity).
  exact (proj2 (proj2 (decoder_made_only_by_current_scan _ _ _ true _ Hf Hn Hd))).
Defined.

(* ------------------------------------------------------------------ *)
(** ** The source and the renderer *)

Section Members.

Context {W : Type} `{World W}.

Implicit Types s : State W.

Lemma notifyListener_members m e1 e2 s :
  mRenderer (notifyListener m e1 e2 s) = mRenderer s
  /\ mSource (notifyListener m e1 e2 s) = mSource s.
Proof.
  destruct (notifyListener_cases m e1 e2 s) as [-> | ->]; split; reflexivity.
Qed.

Lemma tornDown_notifyListener m e1 e2 s :
  tornDown s -> tornDown (notifyListener m e1 e2 s).
Proof.
  destruct (notifyListener_cases m e1 e2 s) as [-> | ->]; auto.
Qed.

Lemma flushDecoder_members audio needShutdown s s' :
  flushDecoder audio needShutdown s = Ok s' ->
  mRenderer s' = mRenderer s /\ mSource s' = mSource s.
Proof.
  unfold flushDecoder, CHECK. intros Hf. crush; simpl; auto.
Qed.

Lemma finishReset_tornDown s s' :
  finishReset s = Ok s' ->
  mFlushingAudio s = NONE -> mFlushingVideo s = NONE -> tornDown s'.
Proof.
  unfold finishReset, CHECK. intros Hf Ha Hv.
  destruct (mAudioDecoder s) eqn:Ead; [discriminate|].
  destruct (mVideoDecoder s) eqn:Evd; [discriminate|].
  simpl in Hf. inv_ok. apply tornDown_notifyListener.
  unfold tornDown; simpl. auto 10.
Qed.

Lemma finishFlushIfPossible_members s s' :
  finishFlushIfPossible s = Ok s' ->
  (mRenderer s' = mRenderer s /\ mSource s' = mSource s) \/ tornDown s'.
Proof.
  unfold finishFlushIfPossible, postScanSources. intros Hf.
  repeat (break_match; try discriminate; inv_ok); inv_ok;
    try (left; simpl; auto; fail);
    right; apply finishReset_tornDown in Hf; auto.
Qed.

Lemma instantiateDecoder_renderer audio s st s' :
  instantiateDecoder audio s = Ok (st, s') -> mRenderer s' = mRenderer s.
Proof.
  unfold instantiateDecoder. intros Hf. crush; simpl; auto.
Qed.

Lemma scanInstantiate_members s s' :
  scanInstantiate s = Ok s' ->
  mRenderer s' = mRenderer s /\ mSource s' = mSource s.
Proof.
  unfold scanInstantiate, bind. intros Hf.
  destruct (instantiateDecoder false (set_mScanSourcesPending false s))
    as [[st1 s1]|] eqn:E1; [|discriminate].
  simpl in Hf.
  destruct (instantiateDecoder_elsewhere _ _ _ _ E1) as (_ & _ & Hso).
  apply instantiateDecoder_renderer in E1. simpl in E1, Hso.
  destruct (negb (isNull (mAudioSink s1))); [|inv_ok; auto].
  destruct (instantiateDecoder true s1) as [[st2 s2]|] eqn:E2; [|discriminate].
  simpl in Hf. inv_ok.
  destruct (instantiateDecoder_elsewhere _ _ _ _ E2) as (_ & _ & Hso2).
  apply instantiateDecoder_renderer in E2. split; congruence.
Qed.

Lemma feedDecoderInputData_members audio msg s st s' :
  feedDecoderInputData audio msg s = Ok (st, s') ->
  mRenderer s' = mRenderer s /\ mSource s' = mSource s.
Proof.
  unfold feedDecoderInputData, bind. intros Hf.
  crush; simpl; auto;
    match goal with
    | Hfl : flushDecoder _ _ _ = Ok _ |- _ =>
        apply flushDecoder_members in Hfl; simpl in Hfl;
        destruct Hfl; split; congruence
    end.
Qed.

Lemma onDecoderNotify_members audio msg cr s s' :
  onDecoderNotify audio msg cr s = Ok s' ->
  (mRenderer s' = mRenderer s /\ mSource s' = mSource s) \/ tornDown s'.
Proof.
  unfold onDecoderNotify, bind, CHECK, renderBuffer. intros Hf.
  repeat (break_match; try discriminate; inv_ok); inv_ok;
    try match goal with
      | Hfd : feedDecoderInputData _ _ _ = Ok _ |- _ =>
          apply feedDecoderInputData_members in Hfd; left;
          destruct Hfd; simpl; split; congruence
      end;
    try (apply finishFlushIfPossible_members in Hf; exact Hf);
    left; simpl; auto.
Qed.

Lemma onMessageReceived_members m s s' :
  onMessageReceived m s = Ok s' ->
  (mRenderer s' = mRenderer s /\ mSource s' = mSource s)
  \/ (m = kWhatStart /\ mSource s <> None /\ mSource s' = mSource s
      /\ mRenderer s' = Some (mkRenderer (mAudioSink s)))
  \/ (exists source, m = kWhatSetDataSource (Some source)
        /\ mSource s = None /\ mSource s' = source
        /\ mRenderer s' = mRenderer s)
  \/ tornDown s'.
Proof.
  destruct m; simpl onMessageReceived.
  10: { unfold bind. intros Hf.
        repeat (break_match; try discriminate; inv_ok); inv_ok;
          try match goal with
            | Hr : finishReset _ = Ok _ |- _ =>
                do 3 right; apply finishReset_tornDown in Hr; [exact Hr| |];
                match goal with
                | Hx : _ || _ = false |- _ =>
                    apply orb_false_elim in Hx; destruct Hx as [Hx1 Hx2];
                    apply negb_false_iff in Hx1, Hx2
                end;
                [destruct (mFlushingAudio s) | destruct (mFlushingVideo s)];
                try discriminate; reflexivity
            end;
          repeat match goal with
            | Hfl : flushDecoder _ _ _ = Ok _ |- _ =>
                apply flushDecoder_members in Hfl; destruct Hfl as [? ?]
            end;
          left; simpl; split; congruence. }
  6, 7: intros Hf; apply onDecoderNotify_members in Hf;
        destruct Hf as [Hf | Hf]; [left; exact Hf | do 3 right; exact Hf].
  1: { unfold CHECK.
       destruct (mSource s) eqn:Eso; [discriminate|]. simpl.
       destruct source as [obj|]; [|discriminate]. intros Hf. inv_ok.
       right; right; left. exists obj. simpl. auto. }
  3: { destruct (mSource s) eqn:Eso; [|discriminate].
       intros Hf. inv_ok.
       right; left. unfold postScanSources.
       destruct (mScanSourcesPending _); simpl; rewrite Eso;
         repeat split; discriminate || reflexivity. }
  all: unfold scanFeed, CHECK, bind; intros Hf; left;
    repeat (break_match; try discriminate; inv_ok); inv_ok;
    try match goal with
      | Hsc : scanInstantiate _ = Ok _ |- _ =>
          apply scanInstantiate_members in Hsc; destruct Hsc as [Hr Hs]
      end;
    try match goal with
      | |- context [notifyListener ?m ?a ?b ?x] =>
          destruct (notifyListener_members m a b x) as [-> ->]
      end;
    simpl; split; congruence.
Qed.

Lemma onMessageReceived_renderer_source m s s' :
  onMessageReceived m s = Ok s' ->
  (mRenderer s <> None -> mSource s <> None) ->
  mRenderer s' <> None -> mSource s' <> None.
Proof.
  intros Hf Hi.
  destruct (onMessageReceived_members _ _ _ Hf)
    as [[Hr Hs] | [(_ & Hso & Hs & _) | [(src & _ & Hn & Hs & Hr) | Ht]]].
  - rewrite Hr, Hs. exact Hi.
  - intros _. rewrite Hs. exact Hso.
  - rewrite Hr. intros Hr'. specialize (Hi Hr'). contradiction.
  - destruct Ht as (_ & Hr & _). intros Hr'. contradiction.
Qed.

Lemma steps_renderer_source es : forall s s',
  steps es s = Ok s' ->
  (mRenderer s <> None -> mSource s <> None) ->
  mRenderer s' <> None -> mSource s' <> None.
Proof.
  induction es as [|e es IH]; simpl; intros s s' Hf Hi.
  - now inv_ok.
  - unfold bind in Hf. destruct (step e s) as [s1|] eqn:Es; [|discriminate].
    apply (IH s1 s' Hf).
    destruct e as [m|n]; simpl in Es.
    + exact (onMessageReceived_renderer_source _ _ _ Es Hi).
    + unfold dispatchQueued in Es.
      destruct (nth_error (queue s) n) as [[m d]|]; [|now inv_ok].
      exact (onMessageReceived_renderer_source _ _ _ Es Hi).
Qed.

End Members.



(** X18: in every state the controller reaches from its initial state, a
    renderer is there only with a source. *)
Theorem renderer_only_with_source {W : Type} `{World W} :
  forall (w : W) (listener : option Listener) (es : list Event) (s : State W),
    steps es (setListener listener (NuPlayer w)) = Ok s ->
    mRenderer s <> None ->
    mSource s <> None.
Proof.
  intros w listener es s Hsteps.
  apply (steps_renderer_source es _ _ Hsteps).
  simpl. intros Hr. contradiction.
Qed.

Lemma renderer_only_with_source_witness :
  mSource avPlaying <> None.
Proof.
  assert (Hsteps : steps (setup ++ [Queued 0%nat])
                         (setListener (Some 1%nat) (NuPlayer avWorld))
                   = Ok avPlaying)
    by (vm_compute; reflexivity).
  assert (Hr : mRenderer avPlaying <> None) by (vm_compute; discriminate).
  exact (renderer_only_with_source _ _ _ _ Hsteps Hr).
Defined.
